(** * djangogirls [applications]: forms, scoring statistics and bulk mail

    A shallow embedding of [applications/models.py] and
    [applications/forms.py].  Database tables are lists of rows, Python
    exceptions are the [Raise] branch of [result], floats are the kernel's
    binary64 numbers, and the mail transport and the template renderer are
    fields of an [Env] record handed to the operations that use them. *)

From Stdlib Require Import ZArith List String Ascii Bool Lia Permutation.
From Stdlib Require Import DecimalString DecimalZ.
From Stdlib Require Import Uint63 Floats.
Import ListNotations.

Open Scope string_scope.
Open Scope list_scope.
Open Scope Z_scope.

(** ** Python values and builtins *)

Module Py.

(** The exceptions the embedded code can raise. *)
Inductive exn : Type :=
| AttributeError
| AssertionError
| TypeError.

Inductive result (A : Type) : Type :=
| Ok (a : A)
| Raise (e : exn).

Arguments Ok {A} a.
Arguments Raise {A} e.

Definition bind {A B : Type} (r : result A) (k : A -> result B) : result B :=
  match r with
  | Ok a => k a
  | Raise e => Raise e
  end.

Notation "x <- r ;; k" := (bind r (fun x => k))
  (at level 61, r at next level, right associativity).

Definition map_result {A B : Type} (f : A -> B) (r : result A) : result B :=
  bind r (fun a => Ok (f a)).

(** Truth value of a string: empty is false. *)
Definition truthy_str (s : string) : bool :=
  negb (String.eqb s "").

(** Truth value of [None]-or-string, as in [if recipient.email]. *)
Definition truthy_ostr (o : option string) : bool :=
  match o with
  | None => false
  | Some s => truthy_str s
  end.

(** Truth value of a float: zero (of either sign) is false, NaN is true. *)
Definition truthy_float (x : float) : bool :=
  negb (PrimFloat.eqb x PrimFloat.zero).

(** [a or b] on [None]-or-string operands with a string fallback. *)
Definition or_str (a : option string) (b : string) : string :=
  match a with
  | Some s => if truthy_str s then s else b
  | None => b
  end.

(** [sep.join(parts)]. *)
Definition join (sep : string) (parts : list string) : string :=
  String.concat sep parts.

(** [s.split(sep)] for a one-character separator: the pieces between the
    occurrences of [sep]; never the empty list. *)
Fixpoint split (sep : ascii) (s : string) : list string :=
  match s with
  | EmptyString => [EmptyString]
  | String c s' =>
      if Ascii.eqb c sep then EmptyString :: split sep s'
      else match split sep s' with
           | [] => [String c EmptyString]
           | w :: ws => String c w :: ws
           end
  end.

(** [s.replace(old, new)] for a non-empty [old]: every non-overlapping
    occurrence, scanning from the left.  [skip] counts the characters of an
    occurrence still to be dropped. *)
Fixpoint replace_from (skip : nat) (old new s : string) : string :=
  match s with
  | EmptyString => EmptyString
  | String c s' =>
      match skip with
      | S k => replace_from k old new s'
      | O =>
          if String.prefix old s
          then (new ++ replace_from (Nat.pred (String.length old)) old new s')%string
          else String c (replace_from O old new s')
      end
  end.

Definition replace (old new s : string) : string :=
  replace_from O old new s.

(** [str(n)] / ['{}'.format(n)] for an integer. *)
Definition str_of_int (n : Z) : string :=
  NilEmpty.string_of_int (Z.to_int n).

(** ASCII white space, as [str.strip] removes it. *)
Definition is_space (c : ascii) : bool :=
  let n := Z.of_N (N_of_ascii c) in
  (n =? 32) || ((9 <=? n) && (n <=? 13)).

Fixpoint lstrip (s : string) : string :=
  match s with
  | EmptyString => EmptyString
  | String c s' => if is_space c then lstrip s' else s
  end.

Fixpoint rstrip (s : string) : string :=
  match s with
  | EmptyString => EmptyString
  | String c s' =>
      match rstrip s' with
      | EmptyString => if is_space c then EmptyString else String c EmptyString
      | r => String c r
      end
  end.

Definition strip (s : string) : string := rstrip (lstrip s).

Definition digit (c : ascii) : option Z :=
  let n := Z.of_N (N_of_ascii c) in
  if (48 <=? n) && (n <=? 57) then Some (n - 48) else None.

Fixpoint int_digits (acc : Z) (s : string) : option Z :=
  match s with
  | EmptyString => Some acc
  | String c s' =>
      match digit c with
      | Some d => int_digits (10 * acc + d) s'
      | None => None
      end
  end.

Definition int_unsigned (s : string) : option Z :=
  match s with
  | EmptyString => None
  | _ => int_digits 0 s
  end.

(** [int(s)] on an ASCII string: optional surrounding white space, an
    optional sign, at least one decimal digit.  [None] is [ValueError]. *)
Definition int (s : string) : option Z :=
  match strip s with
  | String "-"%char r => option_map Z.opp (int_unsigned r)
  | String "+"%char r => int_unsigned r
  | r => int_unsigned r
  end.

(** [float(n)] for a list length (below [2^63], where the machine integer
    holds it). *)
Definition float_of_nat (n : nat) : float :=
  PrimFloat.of_uint63 (Uint63.of_Z (Z.of_nat n)).

(** [sum(xs)] over floats: the left-to-right running sum, starting from 0. *)
Definition sum (xs : list float) : float :=
  fold_left PrimFloat.add xs PrimFloat.zero.

(** [x ** 2] on a float, taken as the correctly rounded square.  Python
    computes it with the C library's [pow], which is within one unit in the
    last place of that and equal to it for most operands, not for all, and
    raises [OverflowError] where the square of a finite float is infinite;
    [Power.variance] below leaves the operator open. *)
Definition pow2 (x : float) : float := PrimFloat.mul x x.

(** [x ** 0.5] on a float that is not negative, taken as the correctly
    rounded square root; the C library's [pow] may differ from it in the
    last place. *)
Definition pow_half (x : float) : float := PrimFloat.sqrt x.

End Py.

Import Py.

(** ** applications/models.py *)

Module Models.

(** Modelled from the spec: [core.models.Event], which is not under
    [src/]; only its primary key and the outbound address the code reads and
    writes are kept. *)
Record Event : Type := mkEvent {
  event_pk : Z;
  event_email : option string
}.

(** Modelled from the spec: [core.models.EventPage], which is not under
    [src/]; the page title, the URL slug and the owning event. *)
Record EventPage : Type := mkEventPage {
  page_title : string;
  page_url : string;
  page_event : Event
}.

(** Points in time, as a count of microseconds. *)
Definition datetime : Type := Z.

Record Form : Type := mkForm {
  form_pk : Z;
  page : EventPage;
  text_header : string;
  text_description : string;
  confirmation_mail : string;
  open_from : option datetime;
  open_until : option datetime
}.

(** A datetime column is true when it is set. *)
Definition is_set (d : option datetime) : bool :=
  match d with
  | Some _ => true
  | None => false
  end.

(** [a < b] on two datetime columns that are set. *)
Definition before (a b : option datetime) : bool :=
  match a, b with
  | Some x, Some y => x <? y
  | _, _ => false
  end.

(** [Form.application_open], at the current time [now]. *)
Definition application_open (now : datetime) (self : Form) : bool :=
  if is_set (open_from self) && is_set (open_until self)
  then before (open_from self) (Some now) && before (Some now) (open_until self)
  else true.

Record Question : Type := mkQuestion {
  question_pk : Z;
  question_form : Z;
  title : string;
  help_text : option string;
  question_type : string;
  is_required : bool;
  choices : option string;
  is_multiple_choice : bool;
  order : Z
}.

(** [Question.get_choices_as_list]. *)
Definition get_choices_as_list (self : Question) : result (list string) :=
  if negb (String.eqb (question_type self) "choices") then Raise TypeError
  else match choices self with
       | None => Raise AttributeError
       | Some c => Ok (split ";"%char c)
       end.

Record Application : Type := mkApplication {
  application_pk : Z;
  application_form : Z;
  state : option string;
  email : option string;
  newsletter_optin : bool
}.

Record Answer : Type := mkAnswer {
  answer_application : Z;
  answer_question : Z;
  answer : string
}.

Record Score : Type := mkScore {
  score_user : Z;
  score_application : Z;
  score : option float;
  comment : option string
}.

(** [[s.score for s in scores if s.score]]. *)
Fixpoint truthy_scores (scores : list Score) : list float :=
  match scores with
  | [] => []
  | s :: rest =>
      match score s with
      | Some x => if truthy_float x then x :: truthy_scores rest
                  else truthy_scores rest
      | None => truthy_scores rest
      end
  end.

(** [Application.average_score], over [self.scores.all()]. *)
Definition average_score (scores : list Score) : option float :=
  let data := truthy_scores scores in
  match data with
  | [] => None
  | _ => Some (PrimFloat.div (Py.sum data) (float_of_nat (List.length data)))
  end.

(** The sum of squared deviations [ss] as [variance] computes it, before the
    assertion, with every square correctly rounded ([pow2]). *)
Definition sum_sq_dev (data : list float) : float :=
  let c := PrimFloat.div (Py.sum data) (float_of_nat (List.length data)) in
  let ss := Py.sum (map (fun x => pow2 (PrimFloat.sub x c)) data) in
  PrimFloat.sub ss
    (PrimFloat.div (pow2 (Py.sum (map (fun x => PrimFloat.sub x c) data)))
                   (float_of_nat (List.length data))).

(** [Application.variance], over [self.scores.all()], with every square
    correctly rounded ([pow2]); the integer 0 of the early returns is the
    float 0. *)
Definition variance (scores : list Score) : result float :=
  let data := truthy_scores scores in
  let n := List.length data in
  if Nat.eqb n 0 then Ok PrimFloat.zero
  else if Nat.ltb n 2 then Ok PrimFloat.zero
  else
    let ss := sum_sq_dev data in
    if PrimFloat.ltb ss PrimFloat.zero then Raise AssertionError
    else Ok (PrimFloat.div ss (float_of_nat (n - 1))).

(** [Application.stdev], with the correctly rounded root ([pow_half]). *)
Definition stdev (scores : list Score) : result float :=
  v <- variance scores ;; Ok (pow_half v).

Record Email : Type := mkEmail {
  email_pk : Z;
  email_form : Form;
  author : Z;
  subject : string;
  text : string;
  recipients_group : string;
  number_of_recipients : option Z;
  successfuly_sent : option string;
  failed_to_sent : option string;
  sent_from : string;
  sent : option datetime
}.

(** [django.core.mail.EmailMessage], with its [content_subtype]. *)
Record EmailMessage : Type := mkEmailMessage {
  msg_subject : string;
  msg_body : string;
  msg_from : string;
  msg_to : list string;
  content_subtype : string
}.

(** The tables the code reads and writes, and the log of delivery attempts:
    each message handed to the transport, with [true] when it went out and
    [false] when [msg.send()] raised. *)
Record World : Type := mkWorld {
  events : list Event;
  questions : list Question;
  applications : list Application;
  answers : list Answer;
  scores : list Score;
  emails : list Email;
  outbox : list (EmailMessage * bool)
}.

(** The collaborators outside the repository: the clock, the mail transport
    (whether [msg.send()] returns, given the attempts made so far) and the
    template renderer. *)
Record Env : Type := mkEnv {
  now : datetime;
  delivers : list (EmailMessage * bool) -> EmailMessage -> bool;
  render_to_string : string -> World -> Application -> string -> string
}.

Definition state_is (group : string) (a : Application) : bool :=
  match state a with
  | Some s => String.eqb s group
  | None => false
  end.

(** [Application.objects.filter(form=form, state=group)]. *)
Definition filter_applications (w : World) (form : Form) (group : string)
  : list Application :=
  filter (fun a => (application_form a =? form_pk form) && state_is group a)
         (applications w).

(** [self.scores.all()] for an Application. *)
Definition scores_all (w : World) (self : Application) : list Score :=
  filter (fun s => score_application s =? application_pk self) (scores w).

(** [row.save()] on a table keyed by primary key: the row with that key is
    replaced, a row with a new key is added. *)
Fixpoint save_row {A : Type} (pk : A -> Z) (row : A) (table : list A)
  : list A :=
  match table with
  | [] => [row]
  | r :: rest =>
      if pk r =? pk row then row :: rest
      else r :: save_row pk row rest
  end.

(** The local state of the loop of [Email.send]: the attempts so far and the
    two lists of addresses. *)
Record SendState : Type := mkSendState {
  attempts : list (EmailMessage * bool);
  ok_list : list string;
  failed_list : list string
}.

(** One iteration of [for recipient in recipients]. *)
Definition send_one (env : Env) (self : Email) (sender : string)
    (st : SendState) (recipient : Application) : SendState :=
  match email recipient with
  | Some addr =>
      if truthy_str addr then
        let msg := mkEmailMessage (subject self) (text self) sender [addr]
                                  "html" in
        if delivers env (attempts st) msg
        then mkSendState (attempts st ++ [(msg, true)])
                         (ok_list st ++ [addr]) (failed_list st)
        else mkSendState (attempts st ++ [(msg, false)])
                         (ok_list st) (failed_list st ++ [addr])
      else st
  | None => st
  end.

(** The sender's address: the event's own, or one made from the page URL. *)
Definition event_address (p : EventPage) : string :=
  or_str (event_email (page_event p))
         (page_url p ++ "@djangogirls.org")%string.

(** [Email.send]: the world and the Email after the call. *)
Definition send (env : Env) (w : World) (self : Email) : World * Email :=
  let recipients :=
    filter_applications w (email_form self) (recipients_group self) in
  let count := Z.of_nat (List.length recipients) in
  let from := event_address (page (email_form self)) in
  let sender :=
    (page_title (page (email_form self)) ++ " <" ++ from ++ ">")%string in
  let st := fold_left (send_one env self sender) recipients
                      (mkSendState (outbox w) [] []) in
  let self' :=
    mkEmail (email_pk self) (email_form self) (author self) (subject self)
            (text self) (recipients_group self)
            (Some count)
            (Some (join ", " (ok_list st)))
            (Some (join ", " (failed_list st)))
            from
            (Some (now env)) in
  (mkWorld (events w) (questions w) (applications w) (answers w) (scores w)
           (save_row email_pk self' (emails w)) (attempts st),
   self').

End Models.

Import Models.

(** ** applications/forms.py *)

Module Forms.

Inductive Widget : Type :=
| Textarea
| RadioSelect
| CheckboxSelectMultiple.

Inductive FieldClass : Type :=
| CharField
| ChoiceField
| MultipleChoiceField
| EmailField.

(** A form field: its class and the keyword arguments it was built with
    ([widget] and [choices] only when the code passes them). *)
Record Field : Type := mkField {
  field_class : FieldClass;
  label : string;
  field_help_text : option string;
  required : bool;
  widget : option Widget;
  field_choices : option (list (string * string))
}.

(** [self.fields[name] = field] on the ordered dictionary of fields: a name
    already present keeps its place and takes the new field. *)
Fixpoint dict_set {V : Type} (name : string) (v : V)
    (d : list (string * V)) : list (string * V) :=
  match d with
  | [] => [(name, v)]
  | (k, old) :: rest =>
      if String.eqb k name then (k, v) :: rest
      else (k, old) :: dict_set name v rest
  end.

(** ['question_{}'.format(question.pk)]. *)
Definition field_name (q : Question) : string :=
  ("question_" ++ str_of_int (question_pk q))%string.

(** [question.help_text or None]. *)
Definition help_text_or_none (q : Question) : option string :=
  match help_text q with
  | Some h => if truthy_str h then Some h else None
  | None => None
  end.

(** [((x, x) for x in question.choices.split(';'))]; a question without a
    choice list has no [split]. *)
Definition choice_pairs (q : Question) : result (list (string * string)) :=
  match choices q with
  | None => Raise AttributeError
  | Some c => Ok (map (fun x => (x, x)) (split ";"%char c))
  end.

(** The body of [for question in questions]: the field the question yields,
    or [None] when no branch builds one. *)
Definition question_field (q : Question) : result (option Field) :=
  let ty := question_type q in
  let w := if String.eqb ty "text" then Some Textarea else None in
  cs <- (if String.eqb ty "choices"
         then map_result Some (choice_pairs q)
         else Ok None) ;;
  let build (cls : FieldClass) (w : option Widget) :=
    mkField cls (title q) (help_text_or_none q) (is_required q) w cs in
  let first :=
    if String.eqb ty "paragraph" || String.eqb ty "text"
    then Some (build CharField w)
    else if String.eqb ty "choices"
    then if is_multiple_choice q
         then Some (build MultipleChoiceField (Some CheckboxSelectMultiple))
         else Some (build ChoiceField (Some RadioSelect))
    else None in
  if String.eqb ty "email" then Ok (Some (build EmailField w))
  else Ok first.

Definition Fields : Type := list (string * Field).

Fixpoint add_questions (questions : list Question) (fields : Fields)
  : result Fields :=
  match questions with
  | [] => Ok fields
  | q :: rest =>
      f <- question_field q ;;
      add_questions rest
        match f with
        | Some fld => dict_set (field_name q) fld fields
        | None => fields
        end
  end.

(** The fixed field added after the questions. *)
Definition newsletter_field : Field :=
  mkField ChoiceField
    "Do you want to receive news from the Django Girls team?"
    (Some ("No spam, pinky swear! Only helpful programming tips and "
           ++ "latest news from Django Girls world. We sent this very rarely."
          )%string)
    true
    (Some RadioSelect)
    (Some [("yes", "Yes please!"); ("no", "No, thank you")]).

(** [ApplicationForm.__init__(questions=questions)]: the form's fields. *)
Definition init (questions : list Question) : result Fields :=
  fields <- add_questions questions [] ;;
  Ok (dict_set "newsletter_optin" newsletter_field fields).

(** The options of a field; none for a field built without [choices]. *)
Definition options (f : Field) : list string :=
  match field_choices f with
  | Some cs => map fst cs
  | None => []
  end.

(** Django's [ChoiceField.valid_value]: the value is the key of a choice. *)
Definition valid_value (f : Field) (v : string) : bool :=
  existsb (String.eqb v) (options f).

(** Django's [ChoiceField.validate]: an empty value passes iff the field is
    not required, any other value iff it is a valid choice. *)
Definition choice_accepts (f : Field) (v : string) : bool :=
  if truthy_str v then valid_value f v else negb (required f).

(** Django's [MultipleChoiceField.validate]: no selection passes iff the
    field is not required, and every selection must be a valid choice. *)
Definition multiple_choice_accepts (f : Field) (sel : list string) : bool :=
  match sel with
  | [] => negb (required f)
  | _ => forallb (valid_value f) sel
  end.

(** A cleaned value: a string, or the list a multiple-choice field yields. *)
Inductive Value : Type :=
| VStr (s : string)
| VList (l : list string).

(** [', '.join(value) if type(value) == list else value]. *)
Definition flatten (v : Value) : string :=
  match v with
  | VList l => join ", " l
  | VStr s => s
  end.

(** [value == 'yes']. *)
Definition is_yes (v : Value) : bool :=
  match v with
  | VStr s => String.eqb s "yes"
  | VList _ => false
  end.

(** [Question.objects.get(pk=pk, form=form)] for a textual [pk]: [None]
    stands for [ValueError] (no integer) and [DoesNotExist] alike, which the
    caller handles in one clause. *)
Definition get_question (w : World) (pk : string) (form : Form)
  : option Question :=
  match Py.int pk with
  | None => None
  | Some n =>
      find (fun q => (question_pk q =? n) && (question_form q =? form_pk form))
           (questions w)
  end.

(** A primary key not yet in use. *)
Definition next_pk {A : Type} (pk : A -> Z) (table : list A) : Z :=
  1 + fold_right Z.max 0 (map pk table).

Definition set_applications (w : World) (apps : list Application) : World :=
  mkWorld (events w) (questions w) apps (answers w) (scores w) (emails w)
          (outbox w).

(** [application.save()]. *)
Definition save_application (w : World) (a : Application) : World :=
  set_applications w (save_row application_pk a (applications w)).

(** [Answer.objects.create(...)]. *)
Definition create_answer (w : World) (a : Answer) : World :=
  mkWorld (events w) (questions w) (applications w) (answers w ++ [a])
          (scores w) (emails w) (outbox w).

(** One iteration of [for name in self.cleaned_data], on the world and the
    local [application]. *)
Definition save_entry (form : Form) (st : World * Application)
    (entry : string * Value) : World * Application :=
  let '(w, application) := st in
  let '(name, value) := entry in
  let pk := replace "question_" "" name in
  let question := get_question w pk form in
  let '(w1, application1) :=
    match question with
    | Some _ => (w, application)
    | None =>
        if String.eqb name "newsletter_optin" then
          let a := mkApplication (application_pk application)
                     (application_form application) (state application)
                     (email application) (is_yes value) in
          (save_application w a, a)
        else (w, application)
    end in
  let value := flatten value in
  match question with
  | Some q =>
      let w2 := create_answer w1
                  (mkAnswer (application_pk application1) (question_pk q)
                            value) in
      if String.eqb (question_type q) "email" then
        let a := mkApplication (application_pk application1)
                   (application_form application1) (state application1)
                   (Some value) (newsletter_optin application1) in
        (save_application w2 a, a)
      else (w2, application1)
  | None => (w1, application1)
  end.

(** [form.page.event.email = ...; form.page.event.save()] when the event has
    no address: the form with its event updated, and the event's row. *)
Definition ensure_event_email (w : World) (form : Form) : World * Form :=
  let p := page form in
  if truthy_ostr (event_email (page_event p)) then (w, form)
  else
    let ev := mkEvent (event_pk (page_event p))
                      (Some (page_url p ++ "@djangogirls.org")%string) in
    (mkWorld (save_row event_pk ev (events w)) (questions w) (applications w)
             (answers w) (scores w) (emails w) (outbox w),
     mkForm (form_pk form) (mkEventPage (page_title p) (page_url p) ev)
            (text_header form) (text_description form)
            (confirmation_mail form) (open_from form) (open_until form)).

(** The confirmation mail at the end of [save]; a failure of [msg.send()]
    is swallowed. *)
Definition send_confirmation (env : Env) (w : World) (form : Form)
    (application : Application) : World :=
  match email application with
  | Some addr =>
      if truthy_str addr then
        let subject :=
          ("Confirmation of your application for "
           ++ page_title (page form))%string in
        let body :=
          render_to_string env "emails/application_confirmation.html" w
                           application (confirmation_mail form) in
        let sender :=
          (page_title (page form) ++ " <"
           ++ match event_email (page_event (page form)) with
              | Some e => e
              | None => "None"
              end ++ ">")%string in
        let msg := mkEmailMessage subject body sender [addr] "html" in
        mkWorld (events w) (questions w) (applications w) (answers w)
                (scores w) (emails w)
                (outbox w ++ [(msg, delivers env (outbox w) msg)])
      else w
  | None => w
  end.

(** [ApplicationForm.save(form=form)] on the cleaned data, in the order the
    dictionary yields its keys: the world, the form and the new Application
    after the call. *)
Definition save (env : Env) (w : World) (form : Form)
    (cleaned_data : list (string * Value)) : World * Form * Application :=
  let application :=
    mkApplication (next_pk application_pk (applications w)) (form_pk form)
                  (Some "submitted") None false in
  let w0 := set_applications w (applications w ++ [application]) in
  let '(w1, application1) :=
    fold_left (save_entry form) cleaned_data (w0, application) in
  let '(w2, form2) := ensure_event_email w1 form in
  (send_confirmation env w2 form2 application1, form2, application1).

End Forms.

Import Forms.

(** ** The specification's notions, in its own words *)

Module Spec.

(** A printed number has no white space at its ends and no letter [q]. *)
Definition plain (c : ascii) : bool :=
  negb (is_space c) && negb (Ascii.eqb c "q").

Fixpoint all_plain (s : string) : bool :=
  match s with
  | EmptyString => true
  | String c s' => plain c && all_plain s'
  end.

(** A window is set when both ends are. *)
Definition window (f : Form) : option (datetime * datetime) :=
  match open_from f, open_until f with
  | Some a, Some b => Some (a, b)
  | _, _ => None
  end.

(** The current time lies within [[open_from, open_until)]. *)
Definition within_half_open (now : datetime) (f : Form) : Prop :=
  exists a b, window f = Some (a, b) /\ a <= now < b.

(** The current time lies strictly between [open_from] and [open_until]. *)
Definition strictly_within (now : datetime) (f : Form) : Prop :=
  exists a b, window f = Some (a, b) /\ a < now < b.

(** A Score carries no value or a value in [[1,5]]. *)
Definition valid_score (s : Score) : bool :=
  match score s with
  | None => true
  | Some x => PrimFloat.leb 1%float x && PrimFloat.leb x 5%float
  end.

(** The included scores: those carrying a numeric value. *)
Fixpoint numeric_scores (scores : list Score) : list float :=
  match scores with
  | [] => []
  | s :: rest =>
      match score s with
      | Some x => x :: numeric_scores rest
      | None => numeric_scores rest
      end
  end.

(** The arithmetic mean of a list of floats. *)
Definition mean (xs : list float) : float :=
  PrimFloat.div (Py.sum xs) (float_of_nat (List.length xs)).

(** [(Σ(x−mean)² − (Σ(x−mean))²/n) / (n−1)], and 0 when [n < 2]. *)
Definition sample_variance (xs : list float) : float :=
  let n := List.length xs in
  if Nat.ltb n 2 then PrimFloat.zero
  else
    let m := mean xs in
    let dev := map (fun x => PrimFloat.sub x m) xs in
    PrimFloat.div
      (PrimFloat.sub
         (Py.sum (map (fun d => PrimFloat.mul d d) dev))
         (PrimFloat.div (PrimFloat.mul (Py.sum dev) (Py.sum dev))
                        (float_of_nat n)))
      (float_of_nat (n - 1)).

(** Not below zero, as a specification float: a NaN, a zero, or a number
    or infinity with the sign bit clear. *)
Definition sf_not_negative (x : spec_float) : Prop :=
  match x with
  | S754_nan | S754_zero _ => True
  | S754_infinity s | S754_finite s _ _ => s = false
  end.

(** The sign bit is clear (or the float is a NaN). *)
Definition sf_sign_clear (x : spec_float) : Prop :=
  match x with
  | S754_nan => True
  | S754_zero s | S754_infinity s | S754_finite s _ _ => s = false
  end.

(** [k] Scores of one Application, by the reviewers [u], [u+1], ..., all
    carrying the value [x]. *)
Fixpoint equal_scores (u : Z) (k : nat) (x : float) : list Score :=
  match k with
  | O => []
  | S k' => mkScore u 1 (Some x) None :: equal_scores (u + 1) k' x
  end.

(** 40261 reviewers who all gave 3.9 (the binary64 number nearest to it). *)
Definition unanimous_pool : list Score :=
  equal_scores 1 (N.to_nat 40261) 0x1.f333333333333p+1%float.

(** The options of a stored choice list, split on pipes and semicolons. *)
Fixpoint split_pipe_or_semicolon (s : string) : list string :=
  match s with
  | EmptyString => [EmptyString]
  | String c s' =>
      if Ascii.eqb c "|"%char || Ascii.eqb c ";"%char
      then EmptyString :: split_pipe_or_semicolon s'
      else match split_pipe_or_semicolon s' with
           | [] => [String c EmptyString]
           | w :: ws => String c w :: ws
           end
  end.

(** The documented question types. *)
Definition documented (q : Question) : bool :=
  existsb (String.eqb (question_type q))
          ["paragraph"; "text"; "choices"; "email"].

(** A choices question has a stored choice list. *)
Definition has_choice_list (q : Question) : bool :=
  if String.eqb (question_type q) "choices"
  then match choices q with Some _ => true | None => false end
  else true.

(** A form entry is the field of a question: it is stored under the
    question's name and holds the field the question yields. *)
Definition field_of (q : Question) (entry : string * Field) : Prop :=
  fst entry = field_name q /\ question_field q = Ok (Some (snd entry)).

(** The recipient has a non-empty address. *)
Definition has_address (a : Application) : bool :=
  truthy_ostr (email a).

(** The address of a recipient that has one. *)
Definition address (a : Application) : string :=
  match email a with
  | Some e => e
  | None => EmptyString
  end.

(** The addresses of the attempts in a delivery log with a given outcome. *)
Definition addresses_with (outcome : bool)
    (log : list (EmailMessage * bool)) : list string :=
  flat_map (fun e => msg_to (fst e))
           (filter (fun e => Bool.eqb (snd e) outcome) log).

(** The addresses of all the attempts in a delivery log. *)
Definition addresses (log : list (EmailMessage * bool)) : list string :=
  flat_map (fun e => msg_to (fst e)) log.

(** Each outcome in a delivery log is the transport's answer for that
    message after the attempts before it. *)
Fixpoint transport_log (env : Env) (history log : list (EmailMessage * bool))
  : Prop :=
  match log with
  | [] => True
  | e :: rest =>
      snd e = delivers env history (fst e) /\
      transport_log env (history ++ [e]) rest
  end.

(** The Answer rows one cleaned entry gives rise to. *)
Definition entry_answers (w : World) (form : Form) (application : Z)
    (entry : string * Value) : list Answer :=
  match get_question w (replace "question_" "" (fst entry)) form with
  | Some q => [mkAnswer application (question_pk q) (flatten (snd entry))]
  | None => []
  end.

End Spec.

Import Spec.

(** ** A small event, used to run the operations *)

Module Sample.

Definition krakow : Form :=
  mkForm 1 (mkEventPage "Django Girls Krakow" "krakow" (mkEvent 1 None))
         "Apply for a spot at Django Girls Krakow!" "Yay!" "Hi there!"
         None None.

Definition q_name : Question :=
  mkQuestion 1 1 "What's your name?" None "paragraph" true None false 1.

Definition q_email : Question :=
  mkQuestion 2 1 "Your e-mail address:" (Some "We will write to it") "email"
             true None false 2.

Definition q_about : Question :=
  mkQuestion 3 1 "Tell us about yourself" None "text" false None false 3.

Definition q_letters : Question :=
  mkQuestion 4 1 "Pick your letters" None "choices" true (Some "A;B;C")
             true 4.

(** A question of another Form. *)
Definition q_other : Question :=
  mkQuestion 9 2 "Dietary needs" None "paragraph" false None false 1.

(** Three accepted applicants, the second one without an address, and one
    rejected applicant. *)
Definition world : World :=
  mkWorld [mkEvent 1 None]
          [q_name; q_email; q_about; q_letters; q_other]
          [mkApplication 1 1 (Some "accepted") (Some "a@x.com") true;
           mkApplication 2 1 (Some "accepted") None false;
           mkApplication 3 1 (Some "rejected") (Some "r@x.com") false;
           mkApplication 4 1 (Some "accepted") (Some "b@x.com") false]
          [] [] [] [].

(** A transport that refuses every message to [a@x.com]. *)
Definition env : Env :=
  mkEnv 1000
        (fun _ msg => negb (existsb (String.eqb "a@x.com") (msg_to msg)))
        (fun _ _ _ intro => intro).

Definition bulk : Email :=
  mkEmail 1 krakow 7 "You are in!" "<p>See you there.</p>" "accepted"
          (Some 0) None None "" None.

Definition cleaned : list (string * Value) :=
  [("question_1", VStr "Ola");
   ("question_9", VStr "none");
   ("question_4", VList ["A"; "B"]);
   ("newsletter_optin", VStr "yes")].

End Sample.

(** ** The rest of applications/models.py and applications/forms.py *)

Module FormModel.

(** Modelled from the spec: one dictionary of [DEFAULT_QUESTIONS]
    ([applications/utils.py] is not under [src/]): the keyword arguments of a
    Question, and the [form] and [order] keys, which are absent until
    [create_default_questions] writes them into the dictionary. *)
Record Kwargs : Type := mkKwargs {
  kw_title : string;
  kw_help_text : option string;
  kw_question_type : string;
  kw_is_required : bool;
  kw_choices : option string;
  kw_is_multiple_choice : bool;
  kw_form : option Z;
  kw_order : option Z
}.

(** [question['form'] = self; question['order'] = i]. *)
Definition set_form_order (k : Kwargs) (form i : Z) : Kwargs :=
  mkKwargs (kw_title k) (kw_help_text k) (kw_question_type k)
           (kw_is_required k) (kw_choices k) (kw_is_multiple_choice k)
           (Some form) (Some i).

(** [Question.objects.create], given the dictionary as keyword arguments:
    the row gets a fresh key; the
    columns [form] and [order] are not nullable, so a dictionary without
    them is refused ([None]). *)
Definition objects_create (w : World) (k : Kwargs) : option World :=
  match kw_form k, kw_order k with
  | Some f, Some o =>
      let q := mkQuestion (next_pk question_pk (questions w)) f (kw_title k)
                          (kw_help_text k) (kw_question_type k)
                          (kw_is_required k) (kw_choices k)
                          (kw_is_multiple_choice k) o in
      Some (mkWorld (events w) (questions w ++ [q]) (applications w)
                    (answers w) (scores w) (emails w) (outbox w))
  | _, _ => None
  end.

(** The loop of [Form.create_default_questions], from the counter [i]: the
    world after it and the dictionaries as the loop leaves them. *)
Fixpoint create_from (form i : Z) (defaults : list Kwargs) (w : World)
  : option (World * list Kwargs) :=
  match defaults with
  | [] => Some (w, [])
  | k :: rest =>
      let k' := set_form_order k form i in
      match objects_create w k' with
      | Some w' =>
          match create_from form (i + 1) rest w' with
          | Some (w'', rest') => Some (w'', k' :: rest')
          | None => None
          end
      | None => None
      end
  end.

(** [Form.create_default_questions]. *)
Definition create_default_questions (self : Form) (defaults : list Kwargs)
    (w : World) : option (World * list Kwargs) :=
  create_from (form_pk self) 1 defaults w.

(** The Form with another primary key. *)
Definition with_pk (k : Z) (f : Form) : Form :=
  mkForm k (page f) (text_header f) (text_description f)
         (confirmation_mail f) (open_from f) (open_until f).

(** [False if self.pk else True]: a key that is unset or 0 is false. *)
Definition is_form_new (pk : option Z) : bool :=
  match pk with
  | Some k => k =? 0
  | None => true
  end.

(** [super(Form, self).save()]: a Form without a key is inserted under a
    fresh one, a Form with a key is stored under it. *)
Definition store (forms : list Form) (pk : option Z) (self : Form)
  : list Form * Form :=
  match pk with
  | Some k => (save_row form_pk (with_pk k self) forms, with_pk k self)
  | None =>
      let f := with_pk (next_pk form_pk forms) self in
      (forms ++ [f], f)
  end.

(** [Form.save], for a Form whose [pk] is [pk]: the table of Forms, the
    world, the default dictionaries and the Form after the call. *)
Definition save (defaults : list Kwargs) (forms : list Form) (w : World)
    (pk : option Z) (self : Form)
  : option (list Form * World * list Kwargs * Form) :=
  let new := is_form_new pk in
  let '(forms', self') := store forms pk self in
  if new then
    match create_default_questions self' defaults w with
    | Some (w', defaults') => Some (forms', w', defaults', self')
    | None => None
    end
  else Some (forms', w, defaults, self').

(** [Form.number_of_applications]: [self.application_set.count()]. *)
Definition number_of_applications (w : World) (self : Form) : Z :=
  Z.of_nat (List.length
              (filter (fun a => application_form a =? form_pk self)
                      (applications w))).

End FormModel.

Module EmailForm.

(** [Meta.fields]. *)
Definition meta_fields : list string := ["recipients_group"; "subject"; "text"].

(** [EmailForm.__init__(instance=instance)]: each field of the form with
    the [disabled] attribute of its widget ([None] when it is not set). *)
Definition init (instance : Email) : list (string * option bool) :=
  let fields := map (fun name => (name, @None bool)) meta_fields in
  if is_set (sent instance)
  then map (fun field => (fst field, Some true)) fields
  else fields.

End EmailForm.

(** ** The statistics with the power operator left open *)

Module Power.

Inductive raised : Type :=
| AssertionError
| OverflowError
| ValueError
| ZeroDivisionError.

(** What a call ends in. *)
Inductive outcome : Type :=
| Returns (v : float)
| Raises (e : raised).

Section Operator.

(** Python's [x ** y] on floats: the value of the C library's [pow], or
    the exception raised in its place. *)
Variable pow : float -> float -> outcome.

(** [sum((x-c)**2 for x in data)], from the running sum [acc]. *)
Fixpoint sum_squares (c : float) (data : list float) (acc : float)
  : outcome :=
  match data with
  | [] => Returns acc
  | x :: rest =>
      match pow (PrimFloat.sub x c) 2%float with
      | Returns sq => sum_squares c rest (PrimFloat.add acc sq)
      | Raises e => Raises e
      end
  end.

(** [Application.variance], over [self.scores.all()]. *)
Definition variance (scores : list Score) : outcome :=
  let data := truthy_scores scores in
  let n := List.length data in
  if Nat.eqb n 0 then Returns PrimFloat.zero
  else
    let c := PrimFloat.div (Py.sum data) (float_of_nat (List.length data)) in
    if Nat.ltb n 2 then Returns PrimFloat.zero
    else
      match sum_squares c data PrimFloat.zero with
      | Raises e => Raises e
      | Returns squares =>
          match pow (Py.sum (map (fun x => PrimFloat.sub x c) data))
                    2%float with
          | Raises e => Raises e
          | Returns square =>
              let ss :=
                PrimFloat.sub squares
                  (PrimFloat.div square (float_of_nat (List.length data))) in
              if PrimFloat.ltb ss PrimFloat.zero then Raises AssertionError
              else Returns (PrimFloat.div ss (float_of_nat (n - 1)))
          end
      end.

(** [Application.stdev]. *)
Definition stdev (scores : list Score) : outcome :=
  match variance scores with
  | Returns v => pow v 0.5%float
  | Raises e => Raises e
  end.

End Operator.

(** The operator that rounds correctly and never raises, on the two
    exponents the code uses. *)
Definition rounded (x y : float) : outcome :=
  if PrimFloat.eqb y 2%float then Returns (PrimFloat.mul x x)
  else Returns (PrimFloat.sqrt x).

(** A result of [variance] or [stdev] above, as an outcome; they raise
    nothing but the assertion. *)
Definition of_result (r : result float) : outcome :=
  match r with
  | Ok v => Returns v
  | Raise _ => Raises AssertionError
  end.

End Power.

(** ** Notions used to state what the code does *)

Module Notions.

(** [d[name]] on an ordered dictionary; [None] for a missing key. *)
Fixpoint dict_get {V : Type} (name : string) (d : list (string * V))
  : option V :=
  match d with
  | [] => None
  | (k, v) :: rest => if String.eqb k name then Some v else dict_get name rest
  end.

(** The value of the last entry under [name]. *)
Definition last_value {V : Type} (name : string) (d : list (string * V))
  : option V :=
  dict_get name (rev d).

(** The character occurs in the string. *)
Fixpoint contains (c : ascii) (s : string) : bool :=
  match s with
  | EmptyString => false
  | String a s' => Ascii.eqb a c || contains c s'
  end.

(** How often the character occurs in the string. *)
Fixpoint occurrences (c : ascii) (s : string) : nat :=
  match s with
  | EmptyString => O
  | String a s' =>
      if Ascii.eqb a c then S (occurrences c s') else occurrences c s'
  end.

(** A Score that [if s.score] skips: no value, or a zero of either sign. *)
Definition blank_score (s : Score) : Prop :=
  score s = None \/ score s = Some 0%float \/ score s = Some (-0)%float.

(** A choices question without a stored choice list. *)
Definition lacks_choice_list (q : Question) : bool :=
  String.eqb (question_type q) "choices"
  && match choices q with Some _ => false | None => true end.

(** The Question of a cleaned entry, when its key resolves to an email
    question of the Form. *)
Definition email_entry (w : World) (form : Form) (entry : string * Value)
  : bool :=
  match get_question w (replace "question_" "" (fst entry)) form with
  | Some q => String.eqb (question_type q) "email"
  | None => false
  end.

(** The value of the last cleaned entry that answers an email question. *)
Definition last_email (w : World) (form : Form)
    (cleaned : list (string * Value)) : option string :=
  match filter (email_entry w form) (rev cleaned) with
  | [] => None
  | e :: _ => Some (flatten (snd e))
  end.

(** The Questions the default dictionaries give a Form, from the order [i]
    and the key [pk] on. *)
Fixpoint default_questions (form pk i : Z) (defaults : list FormModel.Kwargs)
  : list Question :=
  match defaults with
  | [] => []
  | k :: rest =>
      mkQuestion pk form (FormModel.kw_title k) (FormModel.kw_help_text k)
                 (FormModel.kw_question_type k) (FormModel.kw_is_required k)
                 (FormModel.kw_choices k) (FormModel.kw_is_multiple_choice k) i
      :: default_questions form (pk + 1) (i + 1) rest
  end.

(** A message of a bulk Email: its subject and text, the sender made of the
    page title and the event's address, HTML, and one non-empty recipient. *)
Definition bulk_message (self : Email) (m : EmailMessage) : Prop :=
  msg_subject m = subject self /\
  msg_body m = text self /\
  msg_from m
  = (page_title (page (email_form self)) ++ " <"
     ++ event_address (page (email_form self)) ++ ">")%string /\
  content_subtype m = "html" /\
  exists addr, msg_to m = [addr] /\ addr <> "".

(** The Email is in the table under its key. *)
Definition stored (e : Email) (table : list Email) : Prop :=
  find (fun r => email_pk r =? email_pk e) table = Some e.

(** The default dictionaries after [create_default_questions] wrote the
    Form and the orders [i], [i+1], ... into them. *)
Fixpoint stamped (form i : Z) (defaults : list FormModel.Kwargs)
  : list FormModel.Kwargs :=
  match defaults with
  | [] => []
  | k :: rest =>
      FormModel.set_form_order k form i :: stamped form (i + 1) rest
  end.

(** The numbers [i], [i+1], ..., as many as the list has elements. *)
Fixpoint count_from {A : Type} (i : Z) (l : list A) : list Z :=
  match l with
  | [] => []
  | _ :: rest => i :: count_from (i + 1) rest
  end.

(** The Scores that carry a value other than zero. *)
Definition nonzero_scores (scores : list Score) : list float :=
  filter (fun x => negb (PrimFloat.is_zero x)) (numeric_scores scores).

(** The world and the local Application after the loop of
    [ApplicationForm.save], before the event's address and the mail. *)
Definition recorded (w : World) (form : Form)
    (cleaned : list (string * Value)) : World * Application :=
  let application :=
    mkApplication (next_pk application_pk (applications w)) (form_pk form)
                  (Some "submitted") None false in
  fold_left (save_entry form) cleaned
            (set_applications w (applications w ++ [application]),
             application).

(** The confirmation mail for an Application with an address. *)
Definition confirmation (env : Env) (w : World) (form : Form)
    (application : Application) : EmailMessage :=
  mkEmailMessage
    ("Confirmation of your application for " ++ page_title (page form))%string
    (render_to_string env "emails/application_confirmation.html" w
                      application (confirmation_mail form))
    (page_title (page form) ++ " <"
     ++ match event_email (page_event (page form)) with
        | Some e => e
        | None => "None"
        end ++ ">")%string
    [address application] "html".

End Notions.

Import Notions.

Module Fixtures.

Definition defaults : list FormModel.Kwargs :=
  [FormModel.mkKwargs "What's your name?" None "paragraph" true None false
                      None None;
   FormModel.mkKwargs "Your e-mail address:" None "email" true None false
                      (Some 41) (Some 9);
   FormModel.mkKwargs "Which operating system do you use?" None "choices" true
                      (Some "Mac OS X;Windows;Linux") true None None].

(** A world in which every accepted applicant lacks an address. *)
Definition silent_world : World :=
  mkWorld [mkEvent 1 None] []
          [mkApplication 1 1 (Some "accepted") None true;
           mkApplication 2 1 (Some "accepted") (Some "") false;
           mkApplication 3 1 (Some "rejected") (Some "r@x.com") false]
          [] [] [] [].

End Fixtures.

(** * Properties *)

(** ** The builtins on small inputs *)

Section PythonBuiltins.

Example split_semicolons :
  split ";"%char "Mac OS X;Windows;Linux" = ["Mac OS X"; "Windows"; "Linux"] /\
  split ";"%char "" = [""] /\
  split ";"%char "a;;b;" = ["a"; ""; "b"; ""] /\
  split ";"%char "a|b" = ["a|b"].
Proof. repeat split. Qed.

Example replace_prefix :
  replace "question_" "" "question_12" = "12" /\
  replace "question_" "" "newsletter_optin" = "newsletter_optin" /\
  replace "question_" "" "question_question_7" = "7" /\
  replace "question_" "" "a question_b" = "a b".
Proof. repeat split. Qed.

Example int_of_text :
  Py.int "12" = Some 12 /\ Py.int " -3 " = Some (-3) /\ Py.int "+7" = Some 7 /\
  Py.int "" = None /\ Py.int "-" = None /\ Py.int "newsletter_optin" = None /\
  Py.int "1 2" = None.
Proof. repeat split. Qed.

Example str_of_int_digits :
  str_of_int 0 = "0" /\ str_of_int 12 = "12" /\ str_of_int (-5) = "-5".
Proof. repeat split. Qed.

Example join_selections :
  join ", " ["A"; "B"] = "A, B" /\ join ", " ["A"] = "A" /\ join ", " [] = "".
Proof. repeat split. Qed.

(** Replace [digit c], for a literal character [c], by its value. *)
Ltac eval_digit :=
  match goal with
  | |- context [digit ?c] =>
      let v := eval vm_compute in (digit c) in change (digit c) with v
  end.

(** The decimal digits of a number, read back by [int_digits]. *)
Lemma int_digits_acc (d : Decimal.uint) :
  forall acc : positive,
    int_digits (Z.pos acc) (NilEmpty.string_of_uint d)
    = Some (Z.pos (Pos.of_uint_acc d acc)).
Proof.
  induction d; intros acc;
    cbn [NilEmpty.string_of_uint int_digits Pos.of_uint_acc];
    [reflexivity | ..];
    eval_digit;
    cbv iota; rewrite <- IHd; f_equal; lia.
Qed.

Lemma int_digits_zero (d : Decimal.uint) :
  int_digits 0 (NilEmpty.string_of_uint d) = Some (Z.of_N (Pos.of_uint d)).
Proof.
  induction d;
    cbn [NilEmpty.string_of_uint int_digits Pos.of_uint];
    [reflexivity | ..];
    eval_digit;
    cbv iota; [assumption | ..]; cbn [Z.of_N]; apply int_digits_acc.
Qed.

Lemma string_of_uint_plain (d : Decimal.uint) :
  all_plain (NilEmpty.string_of_uint d) = true.
Proof. induction d; simpl; auto. Qed.

Lemma rstrip_plain (s : string) : all_plain s = true -> rstrip s = s.
Proof.
  induction s as [|c s IH]; simpl; [reflexivity |].
  intros H. apply andb_true_iff in H as [Hc Hs]. rewrite (IH Hs).
  destruct s; [| reflexivity].
  unfold plain in Hc. apply andb_true_iff in Hc as [Hc _].
  apply negb_true_iff in Hc. now rewrite Hc.
Qed.

Lemma strip_plain (s : string) : all_plain s = true -> strip s = s.
Proof.
  intros H. unfold strip.
  assert (E : lstrip s = s).
  { destruct s as [|c s]; [reflexivity |]. simpl in *.
    apply andb_true_iff in H as [Hc _]. unfold plain in Hc.
    apply andb_true_iff in Hc as [Hc _]. apply negb_true_iff in Hc.
    now rewrite Hc. }
  rewrite E. now apply rstrip_plain.
Qed.

Lemma replace_plain (s : string) :
  all_plain s = true -> replace_from O "question_" "" s = s.
Proof.
  induction s as [|c s IH]; [reflexivity |].
  intros H. simpl in H. apply andb_true_iff in H as [Hc Hs].
  unfold plain in Hc. apply andb_true_iff in Hc as [_ Hc].
  apply negb_true_iff in Hc.
  cbn [replace_from String.prefix].
  destruct (Ascii.ascii_dec "q" c) as [E | _].
  - subst c. discriminate Hc.
  - now rewrite (IH Hs).
Qed.

Lemma str_of_int_plain (n : Z) : all_plain (str_of_int n) = true.
Proof.
  unfold str_of_int. destruct n as [| p | p]; [reflexivity | |].
  - apply string_of_uint_plain.
  - simpl. apply string_of_uint_plain.
Qed.

Lemma int_unsigned_digits (d : Decimal.uint) :
  d <> Decimal.Nil ->
  int_unsigned (NilEmpty.string_of_uint d) = Some (Z.of_N (Pos.of_uint d)).
Proof.
  intros H. rewrite <- int_digits_zero.
  destruct d; [contradiction | ..]; reflexivity.
Qed.

Lemma int_of_digits (d : Decimal.uint) :
  d <> Decimal.Nil ->
  Py.int (NilEmpty.string_of_uint d) = Some (Z.of_N (Pos.of_uint d)).
Proof.
  intros H. unfold Py.int.
  rewrite (strip_plain _ (string_of_uint_plain d)).
  rewrite <- (int_unsigned_digits d H).
  destruct d; [contradiction | ..]; reflexivity.
Qed.

(** [int(str(n)) == n]. *)
Lemma int_str_of_int (n : Z) : Py.int (str_of_int n) = Some n.
Proof.
  destruct n as [| p | p]; [reflexivity | |].
  - unfold str_of_int. simpl.
    rewrite int_of_digits by apply DecimalPos.Unsigned.to_uint_nonnil.
    now rewrite DecimalPos.Unsigned.of_to.
  - pose proof (str_of_int_plain (Z.neg p)) as Hp.
    unfold Py.int. rewrite (strip_plain _ Hp).
    unfold str_of_int. simpl.
    rewrite int_unsigned_digits by apply DecimalPos.Unsigned.to_uint_nonnil.
    now rewrite DecimalPos.Unsigned.of_to.
Qed.

(** The key [save] derives from a field name is the text of the question's
    primary key, and reading it gives the key back. *)
Lemma field_name_key (q : Question) :
  replace "question_" "" (field_name q) = str_of_int (question_pk q) /\
  Py.int (replace "question_" "" (field_name q)) = Some (question_pk q).
Proof.
  assert (E : replace "question_" "" (field_name q)
              = str_of_int (question_pk q)).
  { unfold replace, field_name.
    pose proof (replace_plain _ (str_of_int_plain (question_pk q))) as H.
    set (t := str_of_int (question_pk q)) in *.
    assert (P : String.prefix "" t = true) by (destruct t; reflexivity).
    cbn. rewrite P. exact H. }
  split; [exact E |]. rewrite E. apply int_str_of_int.
Qed.

End PythonBuiltins.

(** ** The application window *)

Section ApplicationWindow.

Lemma window_set_iff (f : Form) :
  is_set (open_from f) && is_set (open_until f) = true <->
  exists a b, window f = Some (a, b).
Proof.
  unfold window.
  destruct (open_from f) as [a|], (open_until f) as [b|]; simpl; split;
    try discriminate; try (intros (x & y & H); discriminate).
  - intros _. now exists a, b.
  - reflexivity.
Qed.

(** C1, as the code has it: [application_open] is true iff [open_from] and
    [open_until] are not both set, or the current time lies strictly
    between them; the instant [open_from] itself is outside. *)
Theorem application_open_iff (now : datetime) (f : Form) :
  application_open now f = true <->
  window f = None \/ strictly_within now f.
Proof.
  unfold application_open, strictly_within, window, before.
  destruct (open_from f) as [a|], (open_until f) as [b|]; simpl.
  - rewrite andb_true_iff, !Z.ltb_lt. split.
    + intros [H1 H2]. right. exists a, b. split; [reflexivity | lia].
    + intros [H | (x & y & H & Hx)]; [discriminate |].
      injection H as -> ->. lia.
  - split; auto.
  - split; auto.
  - split; auto.
Qed.

(** C1, the claim as written fails at the opening instant: the window
    [[10, 20)] contains 10, and a Form with that window is closed at 10. *)
Lemma application_open_excludes_open_from :
  let f := mkForm 1 (mkEventPage "Page" "city" (mkEvent 1 None))
                  "" "" "" (Some 10) (Some 20) in
  within_half_open 10 f /\ application_open 10 f = false.
Proof.
  split.
  - exists 10, 20. split; [reflexivity | lia].
  - reflexivity.
Qed.

End ApplicationWindow.

(** ** Scoring statistics *)

Section ScoreStatistics.

(** A float that is at least 1 is not zero, so it is true as a condition. *)
Lemma at_least_one_truthy (x : float) :
  PrimFloat.leb 1%float x = true -> truthy_float x = true.
Proof.
  unfold truthy_float. rewrite leb_spec, eqb_spec.
  destruct (Prim2SF x) as [s| s | | s m e]; intros H.
  - destruct s; vm_compute in H; discriminate.
  - destruct s; reflexivity.
  - reflexivity.
  - destruct s; reflexivity.
Qed.

Lemma valid_score_truthy (s : Score) (x : float) :
  valid_score s = true -> score s = Some x -> truthy_float x = true.
Proof.
  unfold valid_score. intros H E. rewrite E in H.
  apply andb_true_iff in H. now apply at_least_one_truthy.
Qed.

(** On valid Scores the condition [if s.score] keeps exactly the Scores
    that carry a value. *)
Lemma truthy_scores_numeric (scores : list Score) :
  forallb valid_score scores = true ->
  truthy_scores scores = numeric_scores scores.
Proof.
  induction scores as [|s rest IH]; simpl; [reflexivity |].
  intros H. apply andb_true_iff in H as [Hs Hrest].
  destruct (score s) as [x|] eqn:E.
  - rewrite (valid_score_truthy s x Hs E). now rewrite IH.
  - now apply IH.
Qed.

(** On Scores that carry no value or a value in [[1,5]], [average_score]
    is [None] when no Score carries a value, and otherwise the arithmetic
    mean of exactly the Scores that carry one. *)
Theorem average_score_mean (scores : list Score) :
  forallb valid_score scores = true ->
  average_score scores =
  match numeric_scores scores with
  | [] => None
  | xs => Some (mean xs)
  end.
Proof.
  intros H. unfold average_score. rewrite (truthy_scores_numeric _ H).
  destruct (numeric_scores scores); reflexivity.
Qed.

(** Five reviewers, one of whom left the score empty. *)
Lemma average_score_mean_witness :
  let pool := [mkScore 1 1 (Some 2%float) None; mkScore 2 1 None (Some "?");
               mkScore 3 1 (Some 3%float) None; mkScore 4 1 (Some 4%float) None;
               mkScore 5 1 (Some 5%float) None] in
  forallb valid_score pool = true /\
  average_score pool = Some 3.5%float /\
  average_score [mkScore 2 1 None (Some "?")] = None.
Proof.
  intros pool. split; [reflexivity |]. split.
  - rewrite (average_score_mean pool); reflexivity.
  - rewrite (average_score_mean [mkScore 2 1 None (Some "?")]); reflexivity.
Defined.

(** The condition [if s.score] keeps exactly the Scores whose value is
    neither missing nor zero. *)
Lemma truthy_scores_nonzero (scores : list Score) :
  truthy_scores scores = nonzero_scores scores.
Proof.
  unfold nonzero_scores.
  induction scores as [|s rest IH]; cbn [truthy_scores numeric_scores];
    [reflexivity |].
  destruct (score s) as [x|]; [| exact IH].
  cbn [filter]. unfold truthy_float, PrimFloat.is_zero in *.
  destruct (PrimFloat.eqb x PrimFloat.zero); cbn [negb]; now rewrite IH.
Qed.

(** C8, as the code has it: [average_score] is [None] when no Score
    carries a value other than zero, and otherwise the arithmetic mean of
    exactly the Scores that carry such a value; a Score with no value or
    with the value 0 is left out. *)
Theorem average_score_of_nonzero_scores (scores : list Score) :
  average_score scores =
  match nonzero_scores scores with
  | [] => None
  | xs => Some (mean xs)
  end.
Proof.
  unfold average_score. rewrite truthy_scores_nonzero.
  destruct (nonzero_scores scores); reflexivity.
Qed.

(** C8 as stated fails on a Score of 0.0: it carries a numeric value, yet
    it is left out.  With the scores 0 and 4 the mean of the Scores that
    carry a value is 2 and [average_score] is 4; with the score 0 alone a
    Score carries a value and [average_score] is [None]. *)
Theorem average_score_drops_zero :
  let nought := mkScore 1 1 (Some 0%float) None in
  let four := mkScore 2 1 (Some 4%float) None in
  numeric_scores [nought; four] = [0%float; 4%float] /\
  mean (numeric_scores [nought; four]) = 2%float /\
  average_score [nought; four] = Some 4%float /\
  average_score [nought; four]
  <> Some (mean (numeric_scores [nought; four])) /\
  numeric_scores [nought] <> [] /\
  average_score [nought] = None.
Proof.
  intros nought four.
  split; [reflexivity |]. split; [reflexivity |]. split; [reflexivity |].
  split; [| split; [discriminate | reflexivity]].
  change (Some 4%float <> Some 2%float). intros H.
  apply (f_equal (fun o => match o with
                           | Some x => PrimFloat.eqb x 4%float
                           | None => false
                           end)) in H.
  vm_compute in H. discriminate.
Qed.

(** [variance] on valid Scores, whenever the assertion on [ss] holds: the
    sample variance of the Scores that carry a value, and [stdev] its
    square root, each square and the root correctly rounded. *)
Lemma variance_when_assertion_holds (scores : list Score) :
  forallb valid_score scores = true ->
  PrimFloat.ltb (sum_sq_dev (numeric_scores scores)) PrimFloat.zero = false ->
  variance scores = Ok (sample_variance (numeric_scores scores)) /\
  stdev scores = Ok (PrimFloat.sqrt (sample_variance (numeric_scores scores))).
Proof.
  intros Hv Hss. unfold stdev, variance.
  rewrite (truthy_scores_numeric _ Hv).
  unfold sample_variance.
  destruct (numeric_scores scores) as [|x [|y rest]] eqn:E.
  - split; reflexivity.
  - split; reflexivity.
  - cbn [List.length Nat.eqb Nat.ltb Nat.leb].
    rewrite Hss. unfold sum_sq_dev, pow2, mean. rewrite map_map.
    split; reflexivity.
Qed.

(** With fewer than two Scores carrying a value, [variance] and [stdev]
    are 0 (no hypothesis on [ss] is needed). *)
Lemma variance_below_two (scores : list Score) :
  forallb valid_score scores = true ->
  (List.length (numeric_scores scores) < 2)%nat ->
  variance scores = Ok PrimFloat.zero /\ stdev scores = Ok PrimFloat.zero.
Proof.
  intros Hv Hn. unfold stdev, variance.
  rewrite (truthy_scores_numeric _ Hv).
  destruct (numeric_scores scores) as [|x [|y rest]]; simpl in Hn.
  - split; reflexivity.
  - split; reflexivity.
  - lia.
Qed.

Example variance_five_scores :
  let pool := map (fun x => mkScore 1 1 (Some x) None)
                  [2; 3; 4; 5; 1]%float in
  average_score pool = Some 3%float /\
  variance pool = Ok 2.5%float /\
  stdev pool = Ok (PrimFloat.sqrt 2.5%float).
Proof. repeat split. Qed.

(** C2, at 40261 Scores of 3.9: every Score is valid, the sum of squared
    deviations comes out as [-2^-114], the assertion fires, and neither
    [variance] nor [stdev] returns. *)
Theorem variance_assertion_fires :
  forallb valid_score unanimous_pool = true /\
  sum_sq_dev (truthy_scores unanimous_pool) = (-0x1p-114)%float /\
  variance unanimous_pool = Raise AssertionError /\
  stdev unanimous_pool = Raise AssertionError.
Proof. vm_compute. repeat split. Qed.

(** C3, at the same Scores: [variance] does not return the sample variance
    of the included Scores (it raises), so [stdev] does not return its
    square root. *)
Theorem variance_not_sample_variance :
  variance unanimous_pool
    <> Ok (sample_variance (numeric_scores unanimous_pool)) /\
  stdev unanimous_pool
    <> Ok (PrimFloat.sqrt (sample_variance (numeric_scores unanimous_pool))).
Proof.
  assert (E : variance unanimous_pool = Raise AssertionError)
    by (vm_compute; reflexivity).
  unfold stdev. rewrite E. split; discriminate.
Qed.

Lemma not_negative_iff (x : float) :
  PrimFloat.ltb x PrimFloat.zero = false <-> sf_not_negative (Prim2SF x).
Proof.
  rewrite ltb_spec. change (Prim2SF PrimFloat.zero) with (S754_zero false).
  destruct (Prim2SF x) as [[|] | [|] | | [|] m e]; simpl; split; intros H;
    try reflexivity; try exact I; discriminate.
Qed.

Lemma binary_round_aux_sign (s : bool) (m e : Z) (l : location) :
  match binary_round_aux prec emax s m e l with
  | S754_nan => True
  | S754_zero s' | S754_infinity s' | S754_finite s' _ _ => s' = s
  end.
Proof.
  unfold binary_round_aux.
  destruct (shr_fexp prec emax m e l) as [mrs1 e1].
  destruct (shr_fexp prec emax _ e1 loc_Exact) as [mrs2 e2].
  destruct (shr_m mrs2); [reflexivity | | exact I].
  now destruct (e2 <=? emax - prec)%Z.
Qed.

Lemma of_uint63_sign_clear (n : PrimInt63.int) :
  sf_sign_clear (Prim2SF (of_uint63 n)).
Proof.
  rewrite of_uint63_spec. unfold binary_normalize.
  pose proof (Uint63.to_Z_bounded n) as B.
  destruct (Uint63.to_Z n) as [| p | p]; [reflexivity | | lia].
  unfold binary_round.
  destruct (shl_align p 0 _) as [mz ez].
  pose proof (binary_round_aux_sign false (Z.pos mz) ez loc_Exact) as H.
  destruct (binary_round_aux prec emax false (Z.pos mz) ez loc_Exact);
    simpl; auto.
Qed.

Lemma div_not_negative (x y : float) :
  sf_not_negative (Prim2SF x) -> sf_sign_clear (Prim2SF y) ->
  sf_not_negative (Prim2SF (x / y)).
Proof.
  rewrite div_spec. unfold SF64div, SFdiv.
  destruct (Prim2SF x) as [sx | sx | | sx mx ex],
           (Prim2SF y) as [sy | sy | | sy my ey];
    simpl; intros Hx Hy; subst; auto.
  destruct (SFdiv_core_binary prec emax (Z.pos mx) ex (Z.pos my) ey)
    as [[mz ez] lz].
  pose proof (binary_round_aux_sign (xorb false false) mz ez lz) as H.
  destruct (binary_round_aux prec emax (xorb false false) mz ez lz);
    simpl; auto.
Qed.

Lemma sqrt_not_negative (x : float) :
  sf_not_negative (Prim2SF x) -> sf_not_negative (Prim2SF (PrimFloat.sqrt x)).
Proof.
  rewrite sqrt_spec. unfold SF64sqrt, SFsqrt.
  destruct (Prim2SF x) as [sx | sx | | sx mx ex]; simpl; intros Hx; subst;
    try reflexivity; auto.
  destruct (SFsqrt_core_binary prec emax (Z.pos mx) ex) as [[mz ez] lz].
  pose proof (binary_round_aux_sign false mz ez lz) as H.
  destruct (binary_round_aux prec emax false mz ez lz); simpl; auto.
Qed.

(** Whenever [variance] returns, its result is not negative, and so is the
    result of [stdev]: the assertion is the only way to a negative [ss]. *)
Lemma variance_result_not_negative (scores : list Score) (v : float) :
  variance scores = Ok v -> PrimFloat.ltb v PrimFloat.zero = false.
Proof.
  unfold variance.
  destruct (Nat.eqb _ 0); [intros [= <-]; reflexivity |].
  destruct (Nat.ltb _ 2); [intros [= <-]; reflexivity |].
  destruct (PrimFloat.ltb (sum_sq_dev _) PrimFloat.zero) eqn:Hss;
    [discriminate |].
  intros [= <-]. apply not_negative_iff, div_not_negative.
  - now apply not_negative_iff.
  - apply of_uint63_sign_clear.
Qed.

Lemma stdev_result_not_negative (scores : list Score) (s : float) :
  stdev scores = Ok s -> PrimFloat.ltb s PrimFloat.zero = false.
Proof.
  unfold stdev. destruct (variance scores) as [v | e] eqn:Hv; simpl;
    [| discriminate].
  intros [= <-]. apply not_negative_iff, sqrt_not_negative, not_negative_iff.
  now apply (variance_result_not_negative scores).
Qed.

End ScoreStatistics.

(** ** The form built from the questions *)

Section FormBuilder.

Lemma existsb_eqb_In (v : string) (l : list string) :
  existsb (String.eqb v) l = true <-> In v l.
Proof.
  rewrite existsb_exists. split.
  - intros (x & Hx & E). apply String.eqb_eq in E. now subst.
  - intros H. exists v. split; [assumption | apply String.eqb_refl].
Qed.

Lemma forallb_valid_value (f : Field) (sel : list string) :
  forallb (valid_value f) sel = true <->
  Forall (fun s => In s (options f)) sel.
Proof.
  rewrite forallb_forall, Forall_forall. unfold valid_value.
  split; intros H s Hs; apply existsb_eqb_In; auto.
Qed.

Lemma map_fst_pairs (l : list string) :
  map fst (map (fun x : string => (x, x)) l) = l.
Proof. rewrite map_map. simpl. apply map_id. Qed.

(** The field a choices question with a stored choice list yields. *)
Lemma question_field_choices (q : Question) (c : string) :
  question_type q = "choices" ->
  choices q = Some c ->
  question_field q =
  Ok (Some (mkField
              (if is_multiple_choice q then MultipleChoiceField
               else ChoiceField)
              (title q) (help_text_or_none q) (is_required q)
              (Some (if is_multiple_choice q then CheckboxSelectMultiple
                     else RadioSelect))
              (Some (map (fun x => (x, x)) (split ";"%char c))))).
Proof.
  intros Hty Hc. unfold question_field, choice_pairs.
  rewrite Hty, Hc. simpl. destruct (is_multiple_choice q); reflexivity.
Qed.

(** C4, as the code has it: the options of a choices question are the
    pieces of the stored choice list between semicolons, and only those; a
    non-empty single value is accepted iff it is one of them, a non-empty
    multiple selection iff every selection is one of them. *)
Theorem choices_split_on_semicolon
    (q : Question) (c v : string) (sel : list string) :
  question_type q = "choices" ->
  choices q = Some c ->
  v <> "" ->
  sel <> [] ->
  exists f,
    question_field q = Ok (Some f) /\
    field_class f = (if is_multiple_choice q then MultipleChoiceField
                     else ChoiceField) /\
    options f = split ";"%char c /\
    get_choices_as_list q = Ok (split ";"%char c) /\
    (choice_accepts f v = true <-> In v (split ";"%char c)) /\
    (multiple_choice_accepts f sel = true <->
     Forall (fun s => In s (split ";"%char c)) sel).
Proof.
  intros Hty Hc Hv Hsel.
  eexists. split; [apply (question_field_choices q c Hty Hc) |].
  assert (Ho : forall cls h r w,
             options (mkField cls (title q) h r w
                        (Some (map (fun x => (x, x)) (split ";"%char c))))
             = split ";"%char c).
  { intros. unfold options. simpl. apply map_fst_pairs. }
  split; [reflexivity |]. split; [apply Ho |]. split.
  { unfold get_choices_as_list. now rewrite Hty, Hc. }
  split.
  - unfold choice_accepts, truthy_str.
    destruct (String.eqb_spec v "") as [E | _]; [contradiction |]. simpl.
    unfold valid_value. rewrite Ho. apply existsb_eqb_In.
  - destruct sel as [|s rest]; [contradiction |].
    unfold multiple_choice_accepts.
    rewrite forallb_valid_value, Ho. reflexivity.
Qed.

Lemma choices_split_on_semicolon_witness :
  let q := mkQuestion 7 1 "Which operating system do you use?" None "choices"
                      true (Some "Mac OS X;Windows;Linux") true 4 in
  exists f,
    question_field q = Ok (Some f) /\
    field_class f = MultipleChoiceField /\
    options f = ["Mac OS X"; "Windows"; "Linux"] /\
    get_choices_as_list q = Ok ["Mac OS X"; "Windows"; "Linux"] /\
    (choice_accepts f "Linux" = true <->
     In "Linux" ["Mac OS X"; "Windows"; "Linux"]) /\
    (multiple_choice_accepts f ["Linux"; "Windows"] = true <->
     Forall (fun s => In s ["Mac OS X"; "Windows"; "Linux"])
            ["Linux"; "Windows"]).
Proof.
  intros q.
  apply (choices_split_on_semicolon q "Mac OS X;Windows;Linux" "Linux"
           ["Linux"; "Windows"]);
    [reflexivity | reflexivity | discriminate | discriminate].
Defined.

(** C4, the claim as written fails on a pipe: for the stored list ["a|b"]
    splitting on pipes and semicolons gives the option ["a"], which the
    field built for the question rejects; its only option is ["a|b"].  It
    also fails on empty submissions: an optional question accepts the empty
    value, which is no option, and a required multiple-choice question
    rejects the empty selection, all of whose selections are options. *)
Lemma choices_claim_fails :
  let piped := mkQuestion 7 1 "Pick one" None "choices" true (Some "a|b")
                          false 4 in
  let optional := mkQuestion 8 1 "Pick one" None "choices" false (Some "a;b")
                             false 5 in
  let several := mkQuestion 9 1 "Pick some" None "choices" true (Some "a;b")
                            true 6 in
  (In "a" (split_pipe_or_semicolon "a|b") /\
   exists f,
     question_field piped = Ok (Some f) /\
     options f = ["a|b"] /\
     choice_accepts f "a" = false /\
     multiple_choice_accepts f ["a"] = false) /\
  (exists f,
     question_field optional = Ok (Some f) /\
     choice_accepts f "" = true /\ ~ In "" (options f)) /\
  (exists f,
     question_field several = Ok (Some f) /\
     multiple_choice_accepts f [] = false /\
     Forall (fun s => In s (options f)) []).
Proof.
  split; [| split].
  - split; [left; reflexivity |].
    eexists. split; [reflexivity |]. repeat split.
  - eexists. split; [reflexivity |]. split; [reflexivity |].
    simpl. intros [H | [H | []]]; discriminate.
  - eexists. split; [reflexivity |]. split; [reflexivity | constructor].
Qed.

End FormBuilder.

Section FieldCount.

Lemma str_of_int_inj (a b : Z) : str_of_int a = str_of_int b -> a = b.
Proof.
  unfold str_of_int. intros E.
  apply DecimalZ.to_int_inj.
  assert (H : Some (Z.to_int a) = Some (Z.to_int b)).
  { rewrite <- (NilEmpty.isi (Z.to_int a)), <- (NilEmpty.isi (Z.to_int b)).
    now rewrite E. }
  now injection H.
Qed.

Lemma field_name_inj (p q : Question) :
  field_name p = field_name q -> question_pk p = question_pk q.
Proof.
  unfold field_name. simpl. intros E. apply str_of_int_inj.
  now injection E.
Qed.

Lemma field_name_not_newsletter (q : Question) :
  field_name q <> "newsletter_optin".
Proof. unfold field_name. simpl. discriminate. Qed.

(** Setting a name that is not yet a key adds the entry at the end. *)
Lemma dict_set_fresh {V : Type} (name : string) (v : V)
    (d : list (string * V)) :
  ~ In name (map fst d) -> dict_set name v d = d ++ [(name, v)].
Proof.
  induction d as [|[k old] rest IH]; simpl; [reflexivity |].
  intros H. destruct (String.eqb_spec k name) as [E | _].
  - exfalso. apply H. now left.
  - rewrite IH; [reflexivity |]. intros Hin. apply H. now right.
Qed.

(** A question of a documented type, with a choice list when it is a
    choices question, yields a field. *)
Lemma question_field_some (q : Question) :
  documented q = true ->
  has_choice_list q = true ->
  exists f, question_field q = Ok (Some f).
Proof.
  unfold documented, has_choice_list, question_field, choice_pairs. simpl.
  destruct (String.eqb_spec (question_type q) "paragraph") as [-> | _];
    [simpl; eauto |].
  destruct (String.eqb_spec (question_type q) "text") as [-> | _];
    [simpl; eauto |].
  destruct (String.eqb_spec (question_type q) "choices") as [-> | _].
  - simpl. destruct (choices q); [| discriminate]. simpl.
    destruct (is_multiple_choice q); eauto.
  - destruct (String.eqb_spec (question_type q) "email") as [_ | _];
      [simpl; eauto | discriminate].
Qed.

Lemma add_questions_appends (questions : list Question) :
  forall fields,
    forallb documented questions = true ->
    forallb has_choice_list questions = true ->
    NoDup (map question_pk questions) ->
    (forall q, In q questions -> ~ In (field_name q) (map fst fields)) ->
    exists added,
      add_questions questions fields = Ok (fields ++ added) /\
      Forall2 field_of questions added.
Proof.
  induction questions as [|q rest IH]; intros fields Hd Hc Hnd Hfresh.
  - exists []. simpl. rewrite app_nil_r. split; constructor.
  - simpl in Hd, Hc. apply andb_true_iff in Hd as [Hdq Hd].
    apply andb_true_iff in Hc as [Hcq Hc].
    inversion Hnd as [|? ? Hq Hnd']; subst.
    destruct (question_field_some q Hdq Hcq) as [f Hf].
    simpl. rewrite Hf. simpl.
    rewrite dict_set_fresh by (apply Hfresh; now left).
    destruct (IH (fields ++ [(field_name q, f)]) Hd Hc Hnd') as (added & E & F).
    + intros p Hp Hin. rewrite map_app in Hin. apply in_app_or in Hin.
      destruct Hin as [Hin | [Hin | []]].
      * apply (Hfresh p); [now right | assumption].
      * simpl in Hin. apply field_name_inj in Hin.
        apply Hq. rewrite Hin. now apply in_map.
    + exists ((field_name q, f) :: added). split.
      * rewrite E, <- app_assoc. reflexivity.
      * constructor; [split; [reflexivity | assumption] | assumption].
Qed.

(** C7, as the code has it: for Questions with distinct primary keys, each
    of a documented type and each choices question with a stored choice
    list, the form has one field per Question, in order, followed by the
    required [newsletter_optin] field with its two options; the number of
    fields is [|questions| + 1]. *)
Theorem form_has_one_field_per_question (questions : list Question) :
  forallb documented questions = true ->
  forallb has_choice_list questions = true ->
  NoDup (map question_pk questions) ->
  exists added,
    init questions = Ok (added ++ [("newsletter_optin", newsletter_field)]) /\
    Forall2 field_of questions added /\
    List.length (added ++ [("newsletter_optin", newsletter_field)])
    = S (List.length questions) /\
    required newsletter_field = true /\
    options newsletter_field = ["yes"; "no"].
Proof.
  intros Hd Hc Hnd.
  destruct (add_questions_appends questions [] Hd Hc Hnd) as (added & E & F).
  { intros q _ []. }
  exists added. unfold init. rewrite E. simpl.
  assert (Hnames : map fst added = map field_name questions).
  { clear E Hd Hc Hnd. induction F as [|q e qs es [Hn _] _ IH]; simpl;
      [reflexivity | now rewrite Hn, IH]. }
  rewrite dict_set_fresh.
  - repeat split; try assumption.
    rewrite length_app, (Forall2_length F). simpl. lia.
  - rewrite Hnames, in_map_iff. intros (q & Hq & _).
    now apply field_name_not_newsletter in Hq.
Qed.

Lemma form_has_one_field_per_question_witness :
  let questions :=
    [mkQuestion 1 1 "What's your name?" None "paragraph" true None false 1;
     mkQuestion 2 1 "Your e-mail address:" (Some "We will write to it")
                "email" true None false 2;
     mkQuestion 3 1 "Tell us about yourself" None "text" false None false 3;
     mkQuestion 4 1 "Which operating system do you use?" None "choices" true
                (Some "Mac OS X;Windows;Linux") false 4] in
  exists added,
    init questions = Ok (added ++ [("newsletter_optin", newsletter_field)]) /\
    Forall2 field_of questions added /\
    List.length (added ++ [("newsletter_optin", newsletter_field)]) = 5%nat /\
    required newsletter_field = true /\
    options newsletter_field = ["yes"; "no"].
Proof.
  intros questions.
  apply (form_has_one_field_per_question questions);
    [reflexivity | reflexivity |].
  repeat constructor; simpl; intuition discriminate.
Defined.

(** C7, the claim as written fails twice: a choices question without a
    stored choice list stops the construction with an [AttributeError], and
    a Question listed twice yields one field, not two. *)
Lemma form_fields_miscount :
  let bare := mkQuestion 4 1 "Pick one" None "choices" true None false 4 in
  let name := mkQuestion 1 1 "What's your name?" None "paragraph" true None
                         false 1 in
  documented bare = true /\
  init [bare] = Raise AttributeError /\
  documented name = true /\
  exists fields, init [name; name] = Ok fields /\ List.length fields = 2%nat.
Proof. repeat split. eexists. split; reflexivity. Qed.

End FieldCount.

(** ** Bulk mail *)

Section BulkMailer.

Variable env : Env.

Lemma filter_applications_iff (w : World) (f : Form) (group : string)
    (a : Application) :
  In a (filter_applications w f group) <->
  In a (applications w) /\ application_form a = form_pk f /\
  state a = Some group.
Proof.
  unfold filter_applications, state_is. rewrite filter_In, andb_true_iff.
  rewrite Z.eqb_eq. destruct (state a) as [s|].
  - rewrite String.eqb_eq. intuition congruence.
  - intuition congruence.
Qed.

(** Outcomes split a log in two: every attempt is in exactly one part. *)
Lemma addresses_partition (log : list (EmailMessage * bool)) :
  Permutation (addresses_with true log ++ addresses_with false log)
              (addresses log).
Proof.
  unfold addresses_with, addresses.
  induction log as [|[m [|]] rest IH]; simpl.
  - constructor.
  - rewrite <- app_assoc. now apply Permutation_app_head.
  - rewrite Permutation_app_comm. rewrite <- app_assoc.
    apply Permutation_app_head. now rewrite Permutation_app_comm.
Qed.

Lemma addresses_with_app (b : bool) (l1 l2 : list (EmailMessage * bool)) :
  addresses_with b (l1 ++ l2) = addresses_with b l1 ++ addresses_with b l2.
Proof. unfold addresses_with. now rewrite filter_app, flat_map_app. Qed.

(** One iteration of the loop of [send]: a recipient without an address is
    skipped, any other gets one attempt, and its address joins the list of
    the attempt's outcome. *)
Lemma send_one_cases (self : Email) (sender : string) (st : SendState)
    (r : Application) :
  let msg := mkEmailMessage (subject self) (text self) sender [address r]
                            "html" in
  let b := delivers env (attempts st) msg in
  send_one env self sender st r =
  if has_address r
  then mkSendState (attempts st ++ [(msg, b)])
                   (ok_list st ++ (if b then [address r] else []))
                   (failed_list st ++ (if b then [] else [address r]))
  else st.
Proof.
  unfold send_one, has_address, address, truthy_ostr.
  destruct (email r) as [addr|]; [| reflexivity].
  destruct (truthy_str addr); [| reflexivity].
  cbv zeta.
  destruct (delivers env (attempts st) _); now rewrite app_nil_r.
Qed.

(** What the loop of [send] does to its state: one attempt per recipient
    with an address, in order and whatever the earlier outcomes were, each
    address appended to the list of its outcome. *)
Lemma send_loop (self : Email) (sender : string)
    (recipients : list Application) :
  forall st,
  exists log,
    let st' := fold_left (send_one env self sender) recipients st in
    attempts st' = attempts st ++ log /\
    transport_log env (attempts st) log /\
    map (fun e => msg_to (fst e)) log
    = map (fun a => [address a]) (filter has_address recipients) /\
    ok_list st' = ok_list st ++ addresses_with true log /\
    failed_list st' = failed_list st ++ addresses_with false log.
Proof.
  induction recipients as [|r rest IH]; intros st.
  - exists []. simpl. rewrite !app_nil_r. repeat split.
  - simpl fold_left. rewrite send_one_cases. simpl filter.
    destruct (has_address r); [| apply IH].
    set (msg := mkEmailMessage _ _ _ _ _).
    set (b := delivers env (attempts st) msg).
    destruct (IH (mkSendState (attempts st ++ [(msg, b)])
                    (ok_list st ++ (if b then [address r] else []))
                    (failed_list st ++ (if b then [] else [address r]))))
      as (log & Ha & Ht & Hl & Hok & Hf).
    cbv zeta in *. simpl in Ha, Ht, Hok, Hf.
    exists ((msg, b) :: log).
    rewrite Ha, Hok, Hf, <- !app_assoc.
    split; [reflexivity |]. split; [split; [reflexivity | assumption] |].
    split; [simpl; now rewrite Hl |].
    unfold addresses_with. destruct b; simpl; split; reflexivity.
Qed.

Lemma addresses_of_singletons (log : list (EmailMessage * bool))
    (l : list Application) :
  map (fun e => msg_to (fst e)) log = map (fun a => [address a]) l ->
  addresses log = map address l.
Proof.
  unfold addresses. revert l.
  induction log as [|e rest IH]; intros [|a l] H; try discriminate.
  - reflexivity.
  - simpl in *. injection H as H1 H2. rewrite H1. simpl. f_equal. auto.
Qed.

Lemma filter_length_split {A : Type} (p : A -> bool) (l : list A) :
  List.length l
  = (List.length (filter p l)
     + List.length (filter (fun a => negb (p a)) l))%nat.
Proof.
  induction l as [|a l IH]; simpl; [reflexivity |].
  destruct (p a); simpl; lia.
Qed.

(** C5: after [send], [number_of_recipients] is the number of Applications
    of the Email's Form in the state [recipients_group], with or without
    an address, and exactly the ones with a non-empty address were handed
    to the transport, one message each. *)
Theorem send_counts_all_candidates (w : World) (self : Email) :
  let candidates :=
    filter_applications w (email_form self) (recipients_group self) in
  let '(w', self') := send env w self in
  number_of_recipients self' = Some (Z.of_nat (List.length candidates)) /\
  (forall a, In a candidates <->
             In a (applications w) /\
             application_form a = form_pk (email_form self) /\
             state a = Some (recipients_group self)) /\
  List.length candidates
  = (List.length (filter has_address candidates)
     + List.length (filter (fun a => negb (has_address a)) candidates))%nat /\
  exists log,
    outbox w' = outbox w ++ log /\
    map (fun e => msg_to (fst e)) log
    = map (fun a => [address a]) (filter has_address candidates).
Proof.
  intros candidates. unfold send. fold candidates.
  set (sender := (_ ++ _)%string).
  destruct (send_loop self sender candidates (mkSendState (outbox w) [] []))
    as (log & Ha & _ & Hl & _ & _).
  cbv zeta in Ha. simpl in Ha. simpl.
  split; [reflexivity |].
  split; [intros a; apply filter_applications_iff |].
  split; [apply filter_length_split |].
  exists log. now split.
Qed.

(** C6: in [send], every recipient with an address is attempted whatever
    happened to the ones before; the outcome of each attempt is the
    transport's; the persisted lists are the comma-joined addresses of the
    attempts that went out and of those that failed, and together they
    hold each attempted address once. *)
Theorem send_isolates_failures (w : World) (self : Email) :
  let candidates :=
    filter_applications w (email_form self) (recipients_group self) in
  let '(w', self') := send env w self in
  exists log,
    outbox w' = outbox w ++ log /\
    transport_log env (outbox w) log /\
    addresses log = map address (filter has_address candidates) /\
    successfuly_sent self' = Some (join ", " (addresses_with true log)) /\
    failed_to_sent self' = Some (join ", " (addresses_with false log)) /\
    Permutation (addresses_with true log ++ addresses_with false log)
                (addresses log).
Proof.
  intros candidates. unfold send. fold candidates.
  set (sender := (_ ++ _)%string).
  destruct (send_loop self sender candidates (mkSendState (outbox w) [] []))
    as (log & Ha & Ht & Hl & Hok & Hf).
  cbv zeta in Ha, Hok, Hf. simpl in Ha, Ht, Hok, Hf. simpl.
  exists log. rewrite Hok, Hf.
  repeat split; try assumption.
  - now apply addresses_of_singletons.
  - apply addresses_partition.
Qed.

End BulkMailer.

(** ** Recording a submission *)

Section ApplicationRecorder.

Variable env : Env.
Variable form : Form.

(** Looking a question up only reads the table of questions. *)
Lemma get_question_questions (w w' : World) (pk : string) :
  questions w' = questions w ->
  get_question w' pk form = get_question w pk form.
Proof. unfold get_question. now intros ->. Qed.

Lemma entry_answers_questions (w w' : World) (a : Z) (e : string * Value) :
  questions w' = questions w ->
  entry_answers w' form a e = entry_answers w form a e.
Proof.
  intros H. unfold entry_answers. now rewrite (get_question_questions w w').
Qed.

Lemma find_by_key (qs : list Question) (q : Question) (f : Z) :
  NoDup (map question_pk qs) ->
  In q qs ->
  question_form q = f ->
  find (fun q' => (question_pk q' =? question_pk q) && (question_form q' =? f))
       qs = Some q.
Proof.
  induction qs as [|q' rest IH]; intros Hnd Hin Hf; [contradiction |].
  inversion Hnd as [|? ? Hq' Hnd']; subst. simpl.
  destruct Hin as [-> | Hin].
  - now rewrite !Z.eqb_refl.
  - destruct (Z.eqb_spec (question_pk q') (question_pk q)) as [E | _].
    + exfalso. apply Hq'. rewrite E. now apply in_map.
    + now apply IH.
Qed.

(** The field name the form gives a Question of the Form resolves to that
    Question again when the submission is saved. *)
Lemma field_name_resolves (w : World) (q : Question) :
  NoDup (map question_pk (questions w)) ->
  In q (questions w) ->
  question_form q = form_pk form ->
  get_question w (replace "question_" "" (field_name q)) form = Some q.
Proof.
  intros Hnd Hin Hf. unfold get_question.
  destruct (field_name_key q) as [_ ->]. now apply find_by_key.
Qed.

(** One iteration of the loop of [save]: the questions and the
    Application's key stay, and the Answers grow by the entry's rows. *)
Lemma save_entry_answers (w : World) (a : Application)
    (e : string * Value) :
  let '(w', a') := save_entry form (w, a) e in
  questions w' = questions w /\
  application_pk a' = application_pk a /\
  answers w' = answers w ++ entry_answers w form (application_pk a) e.
Proof.
  destruct e as [name value]. unfold save_entry, entry_answers. simpl.
  destruct (get_question w (replace "question_" "" name) form) as [q|].
  - destruct (String.eqb (question_type q) "email"); simpl; auto.
  - destruct (String.eqb name "newsletter_optin"); simpl;
      rewrite app_nil_r; auto.
Qed.

(** An entry whose key resolves to no Question of the Form and is not
    [newsletter_optin] leaves the loop's state as it was. *)
Lemma save_entry_unknown (w : World) (a : Application) (name : string)
    (value : Value) :
  get_question w (replace "question_" "" name) form = None ->
  name <> "newsletter_optin" ->
  save_entry form (w, a) (name, value) = (w, a).
Proof.
  intros Hq Hn. unfold save_entry. rewrite Hq.
  destruct (String.eqb_spec name "newsletter_optin"); [contradiction |].
  reflexivity.
Qed.

Lemma save_loop_answers (cleaned : list (string * Value)) :
  forall (w : World) (a : Application),
    let '(w', a') := fold_left (save_entry form) cleaned (w, a) in
    questions w' = questions w /\
    application_pk a' = application_pk a /\
    answers w'
    = answers w ++ flat_map (entry_answers w form (application_pk a)) cleaned.
Proof.
  induction cleaned as [|e rest IH]; intros w a; cbn [fold_left flat_map].
  - rewrite app_nil_r. auto.
  - pose proof (save_entry_answers w a e) as H1.
    destruct (save_entry form (w, a) e) as [w1 a1].
    destruct H1 as (Hq1 & Hp1 & Ha1).
    specialize (IH w1 a1).
    destruct (fold_left (save_entry form) rest (w1, a1)) as [w2 a2].
    destruct IH as (Hq2 & Hp2 & Ha2).
    cbv beta iota.
    split; [congruence |]. split; [congruence |].
    rewrite Ha2, Ha1, Hp1, <- app_assoc. f_equal. f_equal.
    apply flat_map_ext. intros e'. now apply entry_answers_questions.
Qed.

Lemma ensure_event_email_answers (w : World) :
  answers (fst (ensure_event_email w form)) = answers w.
Proof.
  unfold ensure_event_email.
  now destruct (truthy_ostr (event_email (page_event (page form)))).
Qed.

Lemma send_confirmation_answers (w : World) (f : Form) (a : Application) :
  answers (send_confirmation env w f a) = answers w.
Proof.
  unfold send_confirmation.
  destruct (email a) as [addr|]; [destruct (truthy_str addr) |]; reflexivity.
Qed.

(** The Answers after [save]: the earlier ones, then the rows of the
    entries in the order of the cleaned data, all for the new Application. *)
Lemma save_answers (w : World) (cleaned : list (string * Value)) :
  let '(w', _, application) := save env w form cleaned in
  application_pk application = next_pk application_pk (applications w) /\
  answers w'
  = answers w
    ++ flat_map (entry_answers w form (application_pk application)) cleaned.
Proof.
  unfold save.
  set (a0 := mkApplication _ _ _ _ _).
  set (w0 := set_applications _ _).
  pose proof (save_loop_answers cleaned w0 a0) as H.
  destruct (fold_left (save_entry form) cleaned (w0, a0)) as [w1 a1].
  destruct H as (Hq & Hp & Ha).
  pose proof (ensure_event_email_answers w1) as He.
  destruct (ensure_event_email w1 form) as [w2 form2]. simpl in He.
  rewrite send_confirmation_answers, He, Ha, Hp.
  split; reflexivity.
Qed.

(** C9: a cleaned entry whose key resolves to a Question of the Form and
    whose value is a list of selections is persisted as an Answer of the
    new Application for that Question, holding the selections joined by
    [", "] in the order submitted. *)
Theorem save_joins_selections (w : World) (cleaned : list (string * Value))
    (name : string) (sel : list string) (q : Question) :
  In (name, VList sel) cleaned ->
  get_question w (replace "question_" "" name) form = Some q ->
  let '(w', _, application) := save env w form cleaned in
  In (mkAnswer (application_pk application) (question_pk q) (join ", " sel))
     (answers w').
Proof.
  intros Hin Hq. pose proof (save_answers w cleaned) as H.
  destruct (save env w form cleaned) as [[w' form'] application].
  destruct H as [_ ->]. apply in_or_app. right.
  apply in_flat_map. exists (name, VList sel). split; [assumption |].
  unfold entry_answers. simpl. rewrite Hq. now left.
Qed.

(** C10: [save] on cleaned data with an entry whose key resolves to no
    Question of the Form and is not [newsletter_optin] ends exactly as
    [save] on the data without that entry: no Answer for it, no error, and
    the Answers of the other entries as before. *)
Theorem save_ignores_unknown_entries (w : World)
    (before after : list (string * Value)) (name : string) (value : Value) :
  get_question w (replace "question_" "" name) form = None ->
  name <> "newsletter_optin" ->
  save env w form (before ++ (name, value) :: after)
  = save env w form (before ++ after) /\
  let '(w', _, application) :=
    save env w form (before ++ (name, value) :: after) in
  answers w'
  = answers w
    ++ flat_map (entry_answers w form (application_pk application))
                (before ++ after).
Proof.
  intros Hq Hn.
  assert (E : save env w form (before ++ (name, value) :: after)
              = save env w form (before ++ after)).
  { unfold save.
    set (a0 := mkApplication _ _ _ _ _).
    set (w0 := set_applications _ _).
    rewrite !fold_left_app. simpl.
    pose proof (save_loop_answers before w0 a0) as H.
    destruct (fold_left (save_entry form) before (w0, a0)) as [w1 a1].
    destruct H as (Hq1 & _ & _).
    rewrite save_entry_unknown; [reflexivity | | assumption].
    rewrite <- Hq. apply get_question_questions. now rewrite Hq1. }
  split; [exact E |]. rewrite E.
  pose proof (save_answers w (before ++ after)) as H.
  destruct (save env w form (before ++ after)) as [[w' form'] application].
  now destruct H.
Qed.

End ApplicationRecorder.

(** ** The operations on the sample event *)

Section Examples.

(** Three accepted applicants, one without an address: the count is 3, two
    messages are attempted, the refused one does not stop the other, and
    the two lists hold one address each. *)
Example bulk_mail_three_candidates :
  let '(w', sent) := send Sample.env Sample.world Sample.bulk in
  number_of_recipients sent = Some 3 /\
  map (fun e => (msg_to (fst e), snd e)) (outbox w')
  = [(["a@x.com"], false); (["b@x.com"], true)] /\
  successfuly_sent sent = Some "b@x.com" /\
  failed_to_sent sent = Some "a@x.com" /\
  sent_from sent = "krakow@djangogirls.org" /\
  Models.sent sent = Some 1000.
Proof. vm_compute. repeat split. Qed.

Example submission_recorded :
  let '(w', form', application) :=
    save Sample.env Sample.world Sample.krakow
         (Sample.cleaned ++ [("question_2", VStr "ola@x.com")]) in
  answers w' = [mkAnswer 5 1 "Ola"; mkAnswer 5 4 "A, B";
                mkAnswer 5 2 "ola@x.com"] /\
  application = mkApplication 5 1 (Some "submitted") (Some "ola@x.com") true /\
  In application (applications w') /\
  event_email (page_event (page form')) = Some "krakow@djangogirls.org" /\
  map (fun e => msg_to (fst e)) (outbox w') = [["ola@x.com"]].
Proof. vm_compute. repeat split. auto 10. Qed.

Lemma save_joins_selections_witness :
  In ("question_4", VList ["A"; "B"]) Sample.cleaned /\
  get_question Sample.world (replace "question_" "" "question_4")
               Sample.krakow = Some Sample.q_letters /\
  In (mkAnswer 5 4 "A, B")
     (answers (fst (fst (save Sample.env Sample.world Sample.krakow
                              Sample.cleaned)))).
Proof.
  assert (H1 : In ("question_4", VList ["A"; "B"]) Sample.cleaned)
    by (right; right; left; reflexivity).
  assert (H2 : get_question Sample.world (replace "question_" "" "question_4")
                            Sample.krakow = Some Sample.q_letters)
    by reflexivity.
  split; [exact H1 |]. split; [exact H2 |].
  exact (save_joins_selections Sample.env Sample.krakow Sample.world
           Sample.cleaned "question_4" ["A"; "B"] Sample.q_letters H1 H2).
Defined.

Lemma save_ignores_unknown_entries_witness :
  get_question Sample.world (replace "question_" "" "question_9")
               Sample.krakow = None /\
  "question_9" <> "newsletter_optin" /\
  save Sample.env Sample.world Sample.krakow Sample.cleaned
  = save Sample.env Sample.world Sample.krakow
         [("question_1", VStr "Ola"); ("question_4", VList ["A"; "B"]);
          ("newsletter_optin", VStr "yes")].
Proof.
  assert (H1 : get_question Sample.world (replace "question_" "" "question_9")
                            Sample.krakow = None) by reflexivity.
  assert (H2 : "question_9" <> "newsletter_optin") by discriminate.
  split; [exact H1 |]. split; [exact H2 |].
  exact (proj1 (save_ignores_unknown_entries Sample.env Sample.krakow
                  Sample.world [("question_1", VStr "Ola")]
                  [("question_4", VList ["A"; "B"]);
                   ("newsletter_optin", VStr "yes")]
                  "question_9" (VStr "none") H1 H2)).
Defined.

End Examples.

(** * Further properties of the code *)

(** ** Scores that do not count *)

Section BlankScores.

Lemma truthy_scores_app (l1 l2 : list Score) :
  truthy_scores (l1 ++ l2) = truthy_scores l1 ++ truthy_scores l2.
Proof.
  induction l1 as [|s l1 IH]; simpl; [reflexivity |].
  destruct (score s) as [x|]; [destruct (truthy_float x) |];
    simpl; now rewrite IH.
Qed.

Lemma truthy_scores_blank (s : Score) (rest : list Score) :
  blank_score s -> truthy_scores (s :: rest) = truthy_scores rest.
Proof.
  intros [H | [H | H]]; simpl; rewrite H; reflexivity.
Qed.

(** A Score without a value, or with the value 0 (of either sign), counts
    for nothing: wherever it stands among the Scores of an Application, the
    average, the variance and the standard deviation are what they are
    without it. *)
Theorem blank_scores_do_not_count (before after : list Score) (s : Score) :
  blank_score s ->
  average_score (before ++ s :: after) = average_score (before ++ after) /\
  variance (before ++ s :: after) = variance (before ++ after) /\
  stdev (before ++ s :: after) = stdev (before ++ after).
Proof.
  intros H.
  assert (E : truthy_scores (before ++ s :: after)
              = truthy_scores (before ++ after)).
  { rewrite !truthy_scores_app. f_equal. now apply truthy_scores_blank. }
  unfold stdev, variance, average_score. rewrite E. repeat split.
Qed.

Lemma blank_scores_do_not_count_witness :
  let zero := mkScore 9 1 (Some 0%float) (Some "no idea") in
  let a := mkScore 1 1 (Some 2%float) None in
  let b := mkScore 2 1 (Some 5%float) None in
  blank_score zero /\
  average_score [a; zero; b] = Some 3.5%float /\
  variance [a; zero; b] = Ok 4.5%float.
Proof.
  intros zero a b.
  assert (H : blank_score zero) by (right; left; reflexivity).
  split; [exact H |].
  destruct (blank_scores_do_not_count [a] [b] zero H) as (Ea & Ev & _).
  split; (etransitivity; [first [exact Ea | exact Ev] | reflexivity]).
Defined.

End BlankScores.

(** ** The statistics, whatever [**] computes *)

Section PowerOperator.

Lemma rounded_square (x : float) :
  Power.rounded x 2%float = Power.Returns (PrimFloat.mul x x).
Proof. reflexivity. Qed.

Lemma rounded_root (x : float) :
  Power.rounded x 0.5%float = Power.Returns (PrimFloat.sqrt x).
Proof. reflexivity. Qed.

(** Where the operator gives the correctly rounded square of every
    deviation, the sum of the squares is the one of [sum_sq_dev]. *)
Lemma sum_squares_agree (pow : float -> float -> Power.outcome) (c : float)
    (data : list float) (acc : float) :
  Forall (fun x => pow (PrimFloat.sub x c) 2%float
                   = Power.Returns (pow2 (PrimFloat.sub x c))) data ->
  Power.sum_squares pow c data acc
  = Power.Returns
      (fold_left PrimFloat.add
                 (map (fun x => pow2 (PrimFloat.sub x c)) data) acc).
Proof.
  intros H. revert acc.
  induction H as [|x rest Hx _ IH]; intros acc; cbn [Power.sum_squares map
    fold_left]; [reflexivity |].
  rewrite Hx. apply IH.
Qed.

(** [variance] above is [Power.variance] for an operator that gives the
    correctly rounded square of each deviation and of their sum. *)
Lemma variance_agree (pow : float -> float -> Power.outcome)
    (scores : list Score) :
  let data := truthy_scores scores in
  let c := mean data in
  let devs := map (fun x => PrimFloat.sub x c) data in
  Forall (fun d => pow d 2%float = Power.Returns (pow2 d)) devs ->
  pow (Py.sum devs) 2%float = Power.Returns (pow2 (Py.sum devs)) ->
  Power.variance pow scores = Power.of_result (variance scores).
Proof.
  intros data c devs Hd Hs.
  unfold Power.variance, variance. fold data.
  destruct (Nat.eqb (List.length data) 0); [reflexivity |].
  destruct (Nat.ltb (List.length data) 2); [reflexivity |].
  change (PrimFloat.div (Py.sum data) (float_of_nat (List.length data)))
    with c.
  rewrite sum_squares_agree
    by (apply Forall_map in Hd; exact Hd).
  fold devs. rewrite Hs.
  unfold sum_sq_dev. fold c. fold devs. unfold Py.sum at 1.
  destruct (PrimFloat.ltb _ PrimFloat.zero); reflexivity.
Qed.

Lemma variance_rounded (scores : list Score) :
  Power.variance Power.rounded scores = Power.of_result (variance scores) /\
  Power.stdev Power.rounded scores = Power.of_result (stdev scores).
Proof.
  assert (V : Power.variance Power.rounded scores
              = Power.of_result (variance scores)).
  { apply variance_agree; [| apply rounded_square].
    apply Forall_forall. intros d _. apply rounded_square. }
  split; [exact V |].
  unfold Power.stdev, stdev. rewrite V.
  destruct (variance scores); reflexivity.
Qed.

(** Whatever [**] computes or raises: a result of [variance] is not below
    zero, so [stdev] applies [** 0.5] to nothing below zero, and its
    outcome is that of the operator there.  A sum of squared deviations
    below zero ends in the assertion and in no result. *)
Theorem variance_never_negative (pow : float -> float -> Power.outcome)
    (scores : list Score) (v : float) :
  Power.variance pow scores = Power.Returns v ->
  PrimFloat.ltb v PrimFloat.zero = false /\
  Power.stdev pow scores = pow v 0.5%float.
Proof.
  intros H. split; [| unfold Power.stdev; now rewrite H].
  revert H. unfold Power.variance.
  destruct (Nat.eqb _ 0); [intros [= <-]; reflexivity |].
  destruct (Nat.ltb _ 2); [intros [= <-]; reflexivity |].
  destruct (Power.sum_squares _ _ _ _) as [squares | e]; [| discriminate].
  destruct (pow _ 2%float) as [square | e]; [| discriminate].
  destruct (PrimFloat.ltb _ PrimFloat.zero) eqn:Hss; [discriminate |].
  intros [= <-]. apply not_negative_iff, div_not_negative.
  - now apply not_negative_iff.
  - apply of_uint63_sign_clear.
Qed.

(** Five scores under the correctly rounded operator. *)
Lemma variance_never_negative_witness :
  let pool := map (fun x => mkScore 1 1 (Some x) None)
                  [2; 3; 4; 5; 1]%float in
  Power.variance Power.rounded pool = Power.Returns 2.5%float /\
  PrimFloat.ltb 2.5%float PrimFloat.zero = false /\
  Power.stdev Power.rounded pool = Power.rounded 2.5%float 0.5%float.
Proof.
  intros pool. split; [reflexivity |].
  exact (variance_never_negative Power.rounded pool 2.5%float eq_refl).
Defined.

Lemma truthy_scores_equal (u : Z) (k : nat) (x : float) :
  truthy_float x = true -> truthy_scores (equal_scores u k x) = repeat x k.
Proof.
  intros H. revert u.
  induction k as [|k IH]; intros u; cbn [equal_scores truthy_scores repeat
    score]; [reflexivity |].
  now rewrite H, IH.
Qed.

(** The deviation of a Score from the mean at the 40261 Scores of 3.9, and
    the sum of the deviations: [0x1.a0fp-39] and [0x1.002390bp-23]. *)
Example unanimous_pool_deviations :
  let data := truthy_scores unanimous_pool in
  let c := mean data in
  (Prim2SF (PrimFloat.sub 0x1.f333333333333p+1%float c),
   Prim2SF (Py.sum (map (fun x => PrimFloat.sub x c) data)))
  = (S754_finite false 7334842068893696 (-91),
     S754_finite false 4506043648311296 (-75)).
Proof. vm_compute. reflexivity. Qed.

(** The assertion of [variance] fires at the 40261 Scores of 3.9 for every
    operator that squares two numbers as the correctly rounded product
    does: the deviation of a Score from the mean, and the sum of the
    deviations.  Nothing else is asked of [**]. *)
Theorem large_pool_fails_under_any_power
    (pow : float -> float -> Power.outcome) :
  let data := truthy_scores unanimous_pool in
  let c := mean data in
  let d := PrimFloat.sub 0x1.f333333333333p+1%float c in
  let s := Py.sum (map (fun x => PrimFloat.sub x c) data) in
  pow d 2%float = Power.Returns (PrimFloat.mul d d) ->
  pow s 2%float = Power.Returns (PrimFloat.mul s s) ->
  Power.variance pow unanimous_pool = Power.Raises Power.AssertionError /\
  Power.stdev pow unanimous_pool = Power.Raises Power.AssertionError.
Proof.
  intros data c d s Hd Hs.
  assert (E : forall y, In y data -> y = 0x1.f333333333333p+1%float).
  { intros y Hy. unfold data, unanimous_pool in Hy.
    rewrite truthy_scores_equal in Hy by reflexivity.
    now apply repeat_spec in Hy. }
  assert (V : Power.variance pow unanimous_pool
              = Power.Raises Power.AssertionError).
  { rewrite variance_agree.
    - assert (R : variance unanimous_pool = Raise AssertionError)
        by (vm_compute; reflexivity).
      now rewrite R.
    - apply Forall_forall. intros d' Hin.
      apply in_map_iff in Hin as (y & <- & Hy).
      rewrite (E y Hy). exact Hd.
    - exact Hs. }
  split; [exact V |]. unfold Power.stdev. now rewrite V.
Qed.

(** The operator that rounds correctly is one of them. *)
Lemma large_pool_fails_under_any_power_witness :
  Power.variance Power.rounded unanimous_pool
  = Power.Raises Power.AssertionError /\
  Power.stdev Power.rounded unanimous_pool
  = Power.Raises Power.AssertionError.
Proof.
  exact (large_pool_fails_under_any_power Power.rounded (rounded_square _)
           (rounded_square _)).
Defined.

End PowerOperator.

(** ** The list of choices *)

Section ChoiceList.

Lemma split_cons (sep : ascii) (s : string) :
  exists w ws, split sep s = w :: ws.
Proof.
  destruct s as [|c s]; simpl; [now eexists; eexists |].
  destruct (Ascii.eqb c sep); [now eexists; eexists |].
  destruct (split sep s); now eexists; eexists.
Qed.

Lemma join_cons (sep w : string) (ws : list string) :
  join sep (w :: ws)
  = match ws with
    | [] => w
    | _ => (w ++ sep ++ join sep ws)%string
    end.
Proof. destruct ws; reflexivity. Qed.

Lemma join_cons_char (sep : string) (c : ascii) (w : string)
    (ws : list string) :
  join sep (String c w :: ws) = String c (join sep (w :: ws)).
Proof. rewrite !join_cons. destruct ws; reflexivity. Qed.

(** Joining the pieces with the separator gives the text back. *)
Lemma join_split (sep : ascii) (s : string) :
  join (String sep EmptyString) (split sep s) = s.
Proof.
  induction s as [|c s IH]; [reflexivity |]. cbn [split].
  destruct (Ascii.eqb_spec c sep) as [-> | _].
  - rewrite join_cons. destruct (split_cons sep s) as (w & ws & E).
    rewrite E in *. cbn [append]. now rewrite IH.
  - destruct (split_cons sep s) as (w & ws & E). rewrite E in *.
    now rewrite join_cons_char, IH.
Qed.

Lemma split_pieces (sep : ascii) (s : string) :
  Forall (fun piece => contains sep piece = false) (split sep s).
Proof.
  induction s as [|c s IH]; simpl; [now repeat constructor |].
  destruct (Ascii.eqb c sep) eqn:Ec.
  - now constructor.
  - destruct (split_cons sep s) as (w & ws & E). rewrite E in *.
    inversion IH as [|? ? Hw Hws]; subst. constructor; [| assumption].
    simpl. now rewrite Ec, Hw.
Qed.

Lemma split_length (sep : ascii) (s : string) :
  List.length (split sep s) = S (occurrences sep s).
Proof.
  induction s as [|c s IH]; simpl; [reflexivity |].
  destruct (Ascii.eqb c sep); simpl; [now rewrite IH |].
  destruct (split_cons sep s) as (w & ws & E). now rewrite E in *.
Qed.

(** For a choices question with a stored choice list,
    [get_choices_as_list] returns at least one option, one more than the
    list has semicolons; no option holds a semicolon, and joined by
    semicolons the options are the stored text again. *)
Theorem choices_list_round_trip (q : Question) (c : string) :
  question_type q = "choices" ->
  choices q = Some c ->
  exists options,
    get_choices_as_list q = Ok options /\
    options <> [] /\
    List.length options = S (occurrences ";"%char c) /\
    Forall (fun o => contains ";"%char o = false) options /\
    join ";" options = c.
Proof.
  intros Hty Hc. exists (split ";"%char c).
  unfold get_choices_as_list. rewrite Hty, Hc. simpl.
  split; [reflexivity |]. split.
  - destruct (split_cons ";"%char c) as (w & ws & E). rewrite E. discriminate.
  - split; [apply split_length |].
    split; [apply split_pieces | apply (join_split ";"%char)].
Qed.

Lemma choices_list_round_trip_witness :
  exists options,
    get_choices_as_list Sample.q_letters = Ok options /\
    options <> [] /\
    List.length options = 3%nat /\
    Forall (fun o => contains ";"%char o = false) options /\
    join ";" options = "A;B;C".
Proof.
  apply (choices_list_round_trip Sample.q_letters "A;B;C"); reflexivity.
Defined.

End ChoiceList.

(** ** More on bulk mail *)

Section BulkMailMore.

Lemma save_row_find {A : Type} (pk : A -> Z) (row : A) (table : list A) :
  find (fun r => pk r =? pk row) (save_row pk row table) = Some row.
Proof.
  induction table as [|r rest IH]; simpl.
  - now rewrite Z.eqb_refl.
  - destruct (pk r =? pk row) eqn:E; simpl.
    + now rewrite Z.eqb_refl.
    + now rewrite E.
Qed.

Lemma save_row_other {A : Type} (pk : A -> Z) (row : A) (table : list A)
    (r : A) :
  pk r <> pk row -> In r (save_row pk row table) <-> In r table.
Proof.
  intros Hr. induction table as [|r' rest IH]; simpl.
  - split; [intros [<- | []]; contradiction | intros []].
  - destruct (Z.eqb_spec (pk r') (pk row)) as [E | _]; simpl.
    + split; intros [H | H]; auto; subst; congruence.
    + rewrite IH. reflexivity.
Qed.

Lemma save_row_length {A : Type} (pk : A -> Z) (row : A) (table : list A) :
  In (pk row) (map pk table) ->
  List.length (save_row pk row table) = List.length table.
Proof.
  induction table as [|r rest IH]; simpl; [intros [] |].
  destruct (Z.eqb_spec (pk r) (pk row)) as [E | N]; simpl; [reflexivity |].
  intros [H | H]; [contradiction | now rewrite IH].
Qed.

Lemma save_row_keys {A : Type} (pk : A -> Z) (row : A) (table : list A) :
  In (pk row) (map pk (save_row pk row table)).
Proof.
  induction table as [|r rest IH]; simpl; [now left |].
  destruct (Z.eqb_spec (pk r) (pk row)) as [E | N]; simpl; auto.
Qed.

Lemma append_truthy (a b : string) :
  truthy_str b = true -> truthy_str (a ++ b) = true.
Proof. destruct a; [trivial | reflexivity]. Qed.

(** The address mail is sent from is never empty. *)
Lemma event_address_truthy (p : EventPage) :
  truthy_str (event_address p) = true.
Proof.
  unfold event_address, or_str.
  destruct (event_email (page_event p)) as [e|].
  - destruct (truthy_str e) eqn:E; [exact E | now apply append_truthy].
  - now apply append_truthy.
Qed.

(** [send] stamps the Email with the current time and with the address it
    was sent from: the event's own when it has one, otherwise
    [<url>@djangogirls.org]; that address is never empty, the Email's key,
    subject, text and group stay, and the event itself is not updated. *)
Theorem send_stamps_the_email (env : Env) (w : World) (self : Email) :
  let '(w', self') := send env w self in
  sent self' = Some (now env) /\
  sent_from self'
  = or_str (event_email (page_event (page (email_form self))))
           (page_url (page (email_form self)) ++ "@djangogirls.org")%string /\
  truthy_str (sent_from self') = true /\
  events w' = events w /\
  email_form self' = email_form self /\
  (email_pk self', subject self', text self', recipients_group self')
  = (email_pk self, subject self, text self, recipients_group self).
Proof.
  unfold send. cbn -[fold_left filter_applications event_address truthy_str].
  repeat split. apply event_address_truthy.
Qed.

(** The messages of one run of the loop of [send]. *)
Lemma send_loop_messages (env : Env) (self : Email)
    (recipients : list Application) :
  forall st,
  exists log,
    attempts
      (fold_left
         (send_one env self
            (page_title (page (email_form self)) ++ " <"
             ++ event_address (page (email_form self)) ++ ">")%string)
         recipients st)
    = attempts st ++ log /\
    Forall (fun e => bulk_message self (fst e)) log.
Proof.
  induction recipients as [|r rest IH]; intros st.
  - exists []. simpl. rewrite app_nil_r. split; constructor.
  - simpl fold_left. rewrite send_one_cases.
    destruct (has_address r) eqn:Hr; [| apply IH].
    match goal with
    | |- context [fold_left _ rest ?s] => destruct (IH s) as (log & Ha & Hl)
    end.
    simpl in Ha. rewrite <- app_assoc in Ha.
    eexists. split; [exact Ha |]. constructor; [| assumption].
    simpl. unfold bulk_message. simpl. repeat split.
    exists (address r). split; [reflexivity |].
    unfold has_address, address, truthy_ostr in *.
    destruct (email r) as [a|]; [| discriminate].
    intros ->. discriminate.
Qed.

(** Every message [send] hands to the transport carries the Email's subject
    and text as HTML, comes from ["<page title> <address>"], and goes to
    exactly one, non-empty, address. *)
Theorem send_messages_are_uniform (env : Env) (w : World) (self : Email) :
  let '(w', self') := send env w self in
  exists log,
    outbox w' = outbox w ++ log /\
    Forall (fun e => bulk_message self (fst e)) log.
Proof.
  unfold send. cbn [outbox].
  destruct (send_loop_messages env self
              (filter_applications w (email_form self)
                 (recipients_group self))
              (mkSendState (outbox w) [] [])) as (log & Ha & Hl).
  exists log. split; [exact Ha | exact Hl].
Qed.

(** [send] changes no Application, Answer, Question or Score; afterwards
    the Email is found in its table under its key, and the Emails under
    other keys are the ones that were there. *)
Theorem send_stores_only_the_email (env : Env) (w : World) (self : Email) :
  let '(w', self') := send env w self in
  applications w' = applications w /\
  answers w' = answers w /\
  questions w' = questions w /\
  scores w' = scores w /\
  stored self' (emails w') /\
  forall e, email_pk e <> email_pk self ->
            (In e (emails w') <-> In e (emails w)).
Proof.
  unfold send, stored. cbn [applications answers questions scores emails].
  repeat split; try reflexivity.
  - apply (save_row_find email_pk).
  - apply (save_row_other email_pk); assumption.
  - apply (save_row_other email_pk); assumption.
Qed.

End BulkMailMore.

Section BulkMailAgain.

(** One call of [send], in full: the log it adds and what it stores. *)
Lemma send_run (env : Env) (w : World) (self : Email) :
  let '(w', self') := send env w self in
  exists log,
    outbox w' = outbox w ++ log /\
    map (fun e => msg_to (fst e)) log
    = map (fun a => [address a])
          (filter has_address
                  (filter_applications w (email_form self)
                                       (recipients_group self))) /\
    number_of_recipients self'
    = Some (Z.of_nat (List.length
                        (filter_applications w (email_form self)
                                             (recipients_group self)))) /\
    successfuly_sent self' = Some (join ", " (addresses_with true log)) /\
    failed_to_sent self' = Some (join ", " (addresses_with false log)).
Proof.
  unfold send.
  set (candidates := filter_applications w _ _).
  set (sender := (_ ++ _)%string).
  destruct (send_loop env self sender candidates (mkSendState (outbox w) [] []))
    as (log & Ha & _ & Hl & Hok & Hf).
  cbv zeta in Ha, Hok, Hf. simpl in Ha, Hok, Hf. simpl.
  exists log. rewrite Hok, Hf.
  repeat split; assumption.
Qed.

Lemma send_fields (env : Env) (w : World) (self : Email) :
  let '(w', self') := send env w self in
  applications w' = applications w /\
  email_form self' = email_form self /\
  recipients_group self' = recipients_group self /\
  email_pk self' = email_pk self /\
  emails w' = save_row email_pk self' (emails w).
Proof. unfold send. repeat split. Qed.

(** Sending an Email a second time attempts every address again: nothing
    guards against it.  The count is the same, the two lists of the Email
    then describe the second run only, and the Email still has one row. *)
Theorem send_twice_sends_twice (env : Env) (w : World) (self : Email) :
  let '(w1, first) := send env w self in
  let '(w2, second) := send env w1 first in
  exists log1 log2,
    outbox w2 = outbox w ++ log1 ++ log2 /\
    addresses log2 = addresses log1 /\
    number_of_recipients second = number_of_recipients first /\
    successfuly_sent second = Some (join ", " (addresses_with true log2)) /\
    failed_to_sent second = Some (join ", " (addresses_with false log2)) /\
    List.length (emails w2) = List.length (emails w1).
Proof.
  pose proof (send_fields env w self) as F1.
  pose proof (send_run env w self) as R1.
  destruct (send env w self) as [w1 first].
  destruct F1 as (Fa & Ff & Fg & Fp & Fe).
  destruct R1 as (log1 & O1 & A1 & N1 & _ & _).
  pose proof (send_fields env w1 first) as F2.
  pose proof (send_run env w1 first) as R2.
  destruct (send env w1 first) as [w2 second].
  destruct F2 as (_ & _ & _ & Fp2 & Fe2).
  destruct R2 as (log2 & O2 & A2 & N2 & S2 & X2).
  unfold filter_applications in *. rewrite Fa, Ff, Fg in A2, N2.
  exists log1, log2.
  split; [now rewrite O2, O1, app_assoc |].
  split; [rewrite (addresses_of_singletons _ _ A1),
                  (addresses_of_singletons _ _ A2); reflexivity |].
  split; [congruence |].
  split; [assumption |]. split; [assumption |].
  rewrite Fe2. apply save_row_length.
  rewrite Fp2, Fe. apply save_row_keys.
Qed.

(** When no Application of the group has an address, [send] attempts
    nothing and both lists are empty; the Email is marked as sent all the
    same, with the number of Applications of the group. *)
Theorem send_to_nobody (env : Env) (w : World) (self : Email) :
  (forall a, In a (filter_applications w (email_form self)
                                       (recipients_group self)) ->
             has_address a = false) ->
  let '(w', self') := send env w self in
  outbox w' = outbox w /\
  successfuly_sent self' = Some "" /\
  failed_to_sent self' = Some "" /\
  sent self' = Some (now env) /\
  number_of_recipients self'
  = Some (Z.of_nat (List.length
                      (filter_applications w (email_form self)
                                           (recipients_group self)))).
Proof.
  intros Hnone.
  pose proof (send_run env w self) as R.
  assert (Hs : sent (snd (send env w self)) = Some (now env)) by reflexivity.
  destruct (send env w self) as [w' self'].
  destruct R as (log & O & A & N & S & X).
  assert (E : filter has_address
                (filter_applications w (email_form self)
                   (recipients_group self)) = []).
  { clear -Hnone.
    induction (filter_applications w (email_form self)
                 (recipients_group self)) as [|a l IH]; [reflexivity |].
    simpl. rewrite (Hnone a) by now left.
    apply IH. intros b Hb. apply Hnone. now right. }
  rewrite E in A. apply map_eq_nil in A. subst log.
  rewrite app_nil_r in O. repeat split; assumption.
Qed.

Lemma send_to_nobody_witness :
  let '(w', self') := send Sample.env Fixtures.silent_world Sample.bulk in
  outbox w' = [] /\
  successfuly_sent self' = Some "" /\
  failed_to_sent self' = Some "" /\
  sent self' = Some 1000 /\
  number_of_recipients self' = Some 2.
Proof.
  apply (send_to_nobody Sample.env Fixtures.silent_world Sample.bulk).
  intros a [<- | [<- | []]]; reflexivity.
Defined.

End BulkMailAgain.

Section BulkMailCounts.

Lemma filter_both_length {A : Type} (p q : A -> bool) (l : list A) :
  (List.length (filter (fun a => p a && q a) l)
   <= List.length (filter p l))%nat.
Proof.
  induction l as [|a l IH]; simpl; [lia |].
  destruct (p a), (q a); simpl; lia.
Qed.

(** The number of recipients an Email records is never more than the
    number of Applications of its Form, and [send] leaves the number of
    Applications of every Form as it was. *)
Theorem recipients_within_applications (env : Env) (w : World)
    (self : Email) :
  let '(w', self') := send env w self in
  exists n,
    number_of_recipients self' = Some n /\
    0 <= n <= FormModel.number_of_applications w (email_form self) /\
    forall f, FormModel.number_of_applications w' f
              = FormModel.number_of_applications w f.
Proof.
  unfold send. cbn [number_of_recipients].
  eexists. split; [reflexivity |]. split; [| reflexivity].
  unfold FormModel.number_of_applications, filter_applications.
  split; [apply Nat2Z.is_nonneg |].
  apply Nat2Z.inj_le.
  apply (filter_both_length
           (fun a => application_form a =? form_pk (email_form self))
           (state_is (recipients_group self))).
Qed.

(** Once [send] has run, [EmailForm] disables every field of the Email;
    for an Email that was never sent it disables none. *)
Theorem email_form_locked_once_sent (env : Env) (w : World)
    (self draft : Email) :
  sent draft = None ->
  map fst (EmailForm.init (snd (send env w self))) = EmailForm.meta_fields /\
  Forall (fun field => snd field = Some true)
         (EmailForm.init (snd (send env w self))) /\
  Forall (fun field => snd field = None) (EmailForm.init draft).
Proof.
  intros Hd. unfold EmailForm.init. rewrite Hd. simpl.
  repeat split; repeat constructor.
Qed.

Lemma email_form_locked_once_sent_witness :
  let sent := snd (send Sample.env Sample.world Sample.bulk) in
  Models.sent Sample.bulk = None /\
  map fst (EmailForm.init sent) = EmailForm.meta_fields /\
  Forall (fun field => snd field = Some true) (EmailForm.init sent) /\
  Forall (fun field => snd field = None) (EmailForm.init Sample.bulk).
Proof.
  assert (H : Models.sent Sample.bulk = None) by reflexivity.
  split; [exact H |].
  exact (email_form_locked_once_sent Sample.env Sample.world Sample.bulk
           Sample.bulk H).
Defined.

End BulkMailCounts.

(** ** More on the form *)

Section FormBuilderMore.

Lemma question_field_raises (q : Question) :
  lacks_choice_list q = true -> question_field q = Raise AttributeError.
Proof.
  unfold lacks_choice_list, question_field, choice_pairs.
  destruct (String.eqb (question_type q) "choices"); [| discriminate].
  now destruct (choices q).
Qed.

Lemma question_field_returns (q : Question) :
  lacks_choice_list q = false -> exists f, question_field q = Ok f.
Proof.
  unfold lacks_choice_list, question_field, choice_pairs.
  destruct (String.eqb (question_type q) "choices").
  - destruct (choices q); [| discriminate]. intros _. simpl.
    destruct (String.eqb (question_type q) "email"); eauto.
  - intros _. simpl.
    destruct (String.eqb (question_type q) "email"); eauto.
Qed.

Lemma add_questions_result (questions : list Question) :
  forall fields,
    match add_questions questions fields with
    | Ok _ => existsb lacks_choice_list questions = false
    | Raise e => e = AttributeError /\
                 existsb lacks_choice_list questions = true
    end.
Proof.
  induction questions as [|q rest IH]; intros fields; simpl; [reflexivity |].
  destruct (lacks_choice_list q) eqn:L.
  - rewrite (question_field_raises q L). simpl. now split.
  - destruct (question_field_returns q L) as [f ->]. simpl. apply IH.
Qed.

(** Building the form fails in one case only: some choices question has no
    stored choice list, and then with an [AttributeError]; in every other
    case the form is built. *)
Theorem init_fails_only_without_choices (questions : list Question) :
  match init questions with
  | Ok _ => existsb lacks_choice_list questions = false
  | Raise e => e = AttributeError /\
               existsb lacks_choice_list questions = true
  end.
Proof.
  unfold init. pose proof (add_questions_result questions []) as H.
  destruct (add_questions questions []); exact H.
Qed.

Lemma add_questions_app (l1 l2 : list Question) :
  forall fields,
    add_questions (l1 ++ l2) fields
    = (fs <- add_questions l1 fields ;; add_questions l2 fs).
Proof.
  induction l1 as [|q l1 IH]; intros fields; simpl; [reflexivity |].
  destruct (question_field q) as [f | e]; simpl; [apply IH | reflexivity].
Qed.

Lemma question_field_undocumented (q : Question) :
  documented q = false -> question_field q = Ok None.
Proof.
  unfold documented, question_field. simpl. intros H.
  apply orb_false_iff in H as [H1 H]. apply orb_false_iff in H as [H2 H].
  apply orb_false_iff in H as [H3 H]. apply orb_false_iff in H as [H4 _].
  now rewrite H1, H2, H3, H4.
Qed.

(** A Question whose type is none of the four documented ones gets no
    field and raises no error: the form is the one built without it. *)
Theorem init_skips_unknown_types (before after : list Question)
    (q : Question) :
  documented q = false ->
  init (before ++ q :: after) = init (before ++ after).
Proof.
  intros H. unfold init. rewrite !add_questions_app. simpl.
  now rewrite (question_field_undocumented q H).
Qed.

Lemma init_skips_unknown_types_witness :
  let rating := mkQuestion 5 1 "Rate yourself" None "number" true None
                           false 5 in
  documented rating = false /\
  init [Sample.q_name; rating; Sample.q_email]
  = init [Sample.q_name; Sample.q_email].
Proof.
  intros rating.
  assert (H : documented rating = false) by reflexivity.
  split; [exact H |].
  exact (init_skips_unknown_types [Sample.q_name] [Sample.q_email] rating H).
Defined.

Lemma dict_set_keys {V : Type} (name : string) (v : V)
    (d : list (string * V)) (k : string) :
  In k (map fst (dict_set name v d)) <-> k = name \/ In k (map fst d).
Proof.
  induction d as [|[k' old] rest IH]; simpl.
  - intuition.
  - destruct (String.eqb_spec k' name) as [-> | N]; simpl.
    + intuition.
    + rewrite IH. intuition.
Qed.

Lemma dict_set_NoDup {V : Type} (name : string) (v : V)
    (d : list (string * V)) :
  NoDup (map fst d) -> NoDup (map fst (dict_set name v d)).
Proof.
  induction d as [|[k old] rest IH]; simpl; intros H.
  - repeat constructor. intros [].
  - inversion H as [|? ? Hk Hrest]; subst.
    destruct (String.eqb_spec k name) as [-> | N]; simpl.
    + now constructor.
    + constructor; [| now apply IH].
      rewrite dict_set_keys. intros [E | Hin]; [now subst | contradiction].
Qed.

Lemma dict_get_last {V : Type} (name : string) (v : V)
    (d : list (string * V)) :
  ~ In name (map fst d) -> dict_get name (d ++ [(name, v)]) = Some v.
Proof.
  induction d as [|[k old] rest IH]; simpl; intros H.
  - now rewrite String.eqb_refl.
  - destruct (String.eqb_spec k name) as [-> | N].
    + exfalso. apply H. now left.
    + apply IH. intros Hin. apply H. now right.
Qed.

(** The keys of the fields after the loop: unique when they were, and each
    an earlier key or the name of one of the questions. *)
Lemma add_questions_keys (questions : list Question) :
  forall fields fields',
    add_questions questions fields = Ok fields' ->
    (NoDup (map fst fields) -> NoDup (map fst fields')) /\
    forall k, In k (map fst fields') ->
              In k (map fst fields) \/ In k (map field_name questions).
Proof.
  induction questions as [|q rest IH]; intros fields fields'; simpl.
  - intros [= <-]. split; auto.
  - destruct (question_field q) as [[f|] | e]; simpl; [| | discriminate];
      intros H; destruct (IH _ _ H) as [Hnd Hk]; split.
    + intros N. apply Hnd. now apply dict_set_NoDup.
    + intros k Hin. destruct (Hk k Hin) as [H1 | H1]; [| auto].
      apply dict_set_keys in H1 as [-> | H1]; auto.
    + assumption.
    + intros k Hin. destruct (Hk k Hin); auto.
Qed.

(** Whatever the questions, a form that is built ends with the
    [newsletter_optin] field: no question's field takes its name or comes
    after it, and all field names are distinct. *)
Theorem newsletter_field_is_last (questions : list Question)
    (fields : Fields) :
  init questions = Ok fields ->
  exists front,
    fields = front ++ [("newsletter_optin", newsletter_field)] /\
    ~ In "newsletter_optin" (map fst front) /\
    dict_get "newsletter_optin" fields = Some newsletter_field /\
    NoDup (map fst fields).
Proof.
  unfold init. destruct (add_questions questions []) as [front | e] eqn:E;
    simpl; [| discriminate].
  intros [= <-]. destruct (add_questions_keys _ _ _ E) as [Hnd Hk].
  assert (Hfresh : ~ In "newsletter_optin" (map fst front)).
  { intros Hin. destruct (Hk _ Hin) as [[] | Hq].
    apply in_map_iff in Hq as (q & Hq & _).
    now apply field_name_not_newsletter in Hq. }
  exists front. rewrite (dict_set_fresh _ _ _ Hfresh).
  split; [reflexivity |]. split; [assumption |].
  split; [now apply dict_get_last |].
  rewrite <- (dict_set_fresh _ newsletter_field _ Hfresh).
  apply dict_set_NoDup, Hnd. constructor.
Qed.

Lemma newsletter_field_is_last_witness :
  exists fields front,
    init [Sample.q_name; Sample.q_name; Sample.q_letters] = Ok fields /\
    fields = front ++ [("newsletter_optin", newsletter_field)] /\
    ~ In "newsletter_optin" (map fst front) /\
    dict_get "newsletter_optin" fields = Some newsletter_field /\
    NoDup (map fst fields).
Proof.
  eexists.
  assert (H : init [Sample.q_name; Sample.q_name; Sample.q_letters]
              = Ok _) by reflexivity.
  destruct (newsletter_field_is_last _ _ H) as (front & Hf).
  exists front. split; [exact H | exact Hf].
Defined.

End FormBuilderMore.

Section FieldCountMore.

Lemma nodup_map_length {A B : Type}
    (decA : forall x y : A, {x = y} + {x <> y})
    (decB : forall x y : B, {x = y} + {x <> y})
    (f : A -> B) (l : list A) :
  (forall x y, f x = f y -> x = y) ->
  List.length (nodup decB (map f l)) = List.length (nodup decA l).
Proof.
  intros Hinj. induction l as [|a l IH]; simpl; [reflexivity |].
  destruct (in_dec decB (f a) (map f l)) as [Hin | Hout],
           (in_dec decA a l) as [Hin' | Hout']; simpl; auto.
  - exfalso. apply in_map_iff in Hin as (x & Hx & Hl).
    apply Hinj in Hx. now subst.
  - exfalso. apply Hout. now apply in_map.
Qed.

(** Every question that yields a field leaves its name among the keys. *)
Lemma add_questions_covers (questions : list Question) :
  forall fields fields',
    forallb documented questions = true ->
    forallb has_choice_list questions = true ->
    add_questions questions fields = Ok fields' ->
    forall k, In k (map fst fields) \/ In k (map field_name questions) ->
              In k (map fst fields').
Proof.
  induction questions as [|q rest IH]; intros fields fields' Hd Hc; simpl.
  - intros [= <-] k [H | []]. exact H.
  - simpl in Hd, Hc. apply andb_true_iff in Hd as [Hdq Hd].
    apply andb_true_iff in Hc as [Hcq Hc].
    destruct (question_field_some q Hdq Hcq) as [f ->]. simpl.
    intros H k Hk. apply (IH _ _ Hd Hc H).
    rewrite dict_set_keys. intuition.
Qed.

Lemma has_choice_list_not_lacking (questions : list Question) :
  forallb has_choice_list questions = true ->
  existsb lacks_choice_list questions = false.
Proof.
  induction questions as [|q rest IH]; simpl; [reflexivity |].
  intros H. apply andb_true_iff in H as [Hq Hrest].
  rewrite (IH Hrest), orb_false_r.
  unfold has_choice_list, lacks_choice_list in *.
  destruct (String.eqb (question_type q) "choices"); [| reflexivity].
  now destruct (choices q).
Qed.

(** For Questions of documented types, the choices questions with a choice
    list, the form is built with as many fields as the Questions have
    distinct primary keys, and one more; Questions sharing a key share a
    field. *)
Theorem form_counts_distinct_keys (questions : list Question) :
  forallb documented questions = true ->
  forallb has_choice_list questions = true ->
  exists fields,
    init questions = Ok fields /\
    NoDup (map fst fields) /\
    (forall q, In q questions -> In (field_name q) (map fst fields)) /\
    List.length fields
    = S (List.length (nodup Z.eq_dec (map question_pk questions))).
Proof.
  intros Hd Hc. unfold init.
  pose proof (add_questions_result questions []) as R.
  rewrite (has_choice_list_not_lacking questions Hc) in R.
  destruct (add_questions questions []) as [front | e] eqn:E;
    [clear R | destruct R; discriminate].
  destruct (add_questions_keys _ _ _ E) as [Hnd Hk].
  specialize (Hnd (NoDup_nil _)).
  pose proof (add_questions_covers _ _ _ Hd Hc E) as Hcov.
  assert (Hfresh : ~ In "newsletter_optin" (map fst front)).
  { intros Hin. destruct (Hk _ Hin) as [[] | Hq].
    apply in_map_iff in Hq as (q & Hq & _).
    now apply field_name_not_newsletter in Hq. }
  eexists. simpl. split; [reflexivity |].
  rewrite (dict_set_fresh _ _ _ Hfresh).
  split; [| split].
  - rewrite <- (dict_set_fresh _ newsletter_field _ Hfresh).
    now apply dict_set_NoDup.
  - intros q Hq. rewrite map_app. apply in_or_app. left.
    apply Hcov. right. now apply in_map.
  - rewrite length_app. simpl. rewrite Nat.add_1_r. f_equal.
    rewrite <- (length_map fst front).
    rewrite <- (nodup_map_length Z.eq_dec string_dec
                  (fun z => ("question_" ++ str_of_int z)%string)).
    + rewrite map_map. apply Permutation_length, NoDup_Permutation.
      * exact Hnd.
      * apply NoDup_nodup.
      * intros k. rewrite nodup_In. split.
        -- intros Hin. destruct (Hk _ Hin) as [[] | H]. exact H.
        -- intros Hin. apply Hcov. now right.
    + intros x y H. apply str_of_int_inj. now injection H.
Qed.

Lemma form_counts_distinct_keys_witness :
  let questions := [Sample.q_name; Sample.q_letters; Sample.q_name] in
  exists fields,
    init questions = Ok fields /\
    NoDup (map fst fields) /\
    (forall q, In q questions -> In (field_name q) (map fst fields)) /\
    List.length fields = 3%nat.
Proof.
  intros questions.
  apply (form_counts_distinct_keys questions); reflexivity.
Defined.

End FieldCountMore.

(** ** More on recording a submission *)

Section RecorderState.

Lemma next_pk_above {A : Type} (pk : A -> Z) (table : list A) (r : A) :
  In r table -> pk r < next_pk pk table.
Proof.
  unfold next_pk.
  induction table as [|x rest IH]; cbn [map fold_right In]; [intros [] |].
  intros [-> | H]; [lia |]. specialize (IH H). lia.
Qed.

Lemma next_pk_fresh {A : Type} (pk : A -> Z) (table : list A) :
  ~ In (next_pk pk table) (map pk table).
Proof.
  intros H. apply in_map_iff in H as (r & E & Hr).
  pose proof (next_pk_above pk table r Hr). lia.
Qed.

(** Saving the last row of a table again replaces it in place. *)
Lemma save_row_last {A : Type} (pk : A -> Z) (old : list A) (a a' : A) :
  ~ In (pk a) (map pk old) -> pk a' = pk a ->
  save_row pk a' (old ++ [a]) = old ++ [a'].
Proof.
  intros Hf E. induction old as [|r rest IH]; simpl.
  - now rewrite E, Z.eqb_refl.
  - destruct (Z.eqb_spec (pk r) (pk a')) as [H | _].
    + exfalso. apply Hf. left. congruence.
    + rewrite IH; [reflexivity |]. intros Hin. apply Hf. now right.
Qed.

(** The key [newsletter_optin] never resolves to a Question. *)
Lemma newsletter_is_no_question (w : World) (form : Form) :
  get_question w (replace "question_" "" "newsletter_optin") form = None.
Proof. reflexivity. Qed.

(** One iteration of the loop of [save], on a world whose last Application
    is the local one: it still is afterwards, and only the opt-in and the
    address can have changed. *)
Lemma save_entry_step (form : Form) (w : World) (a : Application)
    (old : list Application) (e : string * Value) :
  applications w = old ++ [a] ->
  ~ In (application_pk a) (map application_pk old) ->
  let '(w', a') := save_entry form (w, a) e in
  applications w' = old ++ [a'] /\
  application_pk a' = application_pk a /\
  application_form a' = application_form a /\
  state a' = state a /\
  (events w', questions w', scores w', emails w', outbox w')
  = (events w, questions w, scores w, emails w, outbox w) /\
  newsletter_optin a'
  = (if String.eqb (fst e) "newsletter_optin" then is_yes (snd e)
     else newsletter_optin a) /\
  Models.email a'
  = (if email_entry w form e then Some (flatten (snd e)) else Models.email a).
Proof.
  intros Ht Hf. destruct e as [name value].
  unfold save_entry, email_entry. cbn [fst snd].
  destruct (String.eqb_spec name "newsletter_optin") as [-> | N].
  - rewrite newsletter_is_no_question. cbn.
    rewrite Ht, (save_row_last application_pk old a) by auto.
    repeat split.
  - destruct (get_question w (replace "question_" "" name) form) as [q|];
      [| cbn; repeat split; assumption].
    destruct (String.eqb (question_type q) "email"); cbn;
      [| repeat split; assumption].
    rewrite Ht, (save_row_last application_pk old a) by auto.
    repeat split.
Qed.

Lemma dict_get_app {V : Type} (k : string) (l1 l2 : list (string * V)) :
  dict_get k (l1 ++ l2)
  = match dict_get k l1 with
    | Some v => Some v
    | None => dict_get k l2
    end.
Proof.
  induction l1 as [|[k' v] l1 IH]; simpl; [reflexivity |].
  now destruct (String.eqb k' k).
Qed.

Lemma last_value_cons {V : Type} (k : string) (e : string * V)
    (rest : list (string * V)) :
  last_value k (e :: rest)
  = match last_value k rest with
    | Some v => Some v
    | None => if String.eqb (fst e) k then Some (snd e) else None
    end.
Proof.
  unfold last_value. simpl. rewrite dict_get_app. destruct e as [k' v].
  simpl. now destruct (String.eqb k' k).
Qed.

Lemma last_email_cons (w : World) (form : Form) (e : string * Value)
    (rest : list (string * Value)) :
  last_email w form (e :: rest)
  = match last_email w form rest with
    | Some x => Some x
    | None => if email_entry w form e then Some (flatten (snd e)) else None
    end.
Proof.
  unfold last_email. simpl. rewrite filter_app. simpl.
  destruct (filter (email_entry w form) (rev rest)); simpl;
    now destruct (email_entry w form e).
Qed.

Lemma email_entry_questions (form : Form) (w w' : World)
    (e : string * Value) :
  questions w' = questions w -> email_entry w' form e = email_entry w form e.
Proof.
  intros H. unfold email_entry.
  now rewrite (get_question_questions form w w').
Qed.

Lemma last_email_questions (form : Form) (w w' : World)
    (cleaned : list (string * Value)) :
  questions w' = questions w ->
  last_email w' form cleaned = last_email w form cleaned.
Proof.
  intros H. unfold last_email.
  rewrite (filter_ext (email_entry w' form) (email_entry w form));
    [reflexivity |].
  intros e. now apply email_entry_questions.
Qed.

(** The loop of [save], on a world whose last Application is the local one. *)
Lemma save_loop_state (form : Form) (cleaned : list (string * Value)) :
  forall (w : World) (a : Application) (old : list Application),
    applications w = old ++ [a] ->
    ~ In (application_pk a) (map application_pk old) ->
    let '(w', a') := fold_left (save_entry form) cleaned (w, a) in
    applications w' = old ++ [a'] /\
    application_pk a' = application_pk a /\
    application_form a' = application_form a /\
    state a' = state a /\
    (events w', questions w', scores w', emails w', outbox w')
    = (events w, questions w, scores w, emails w, outbox w) /\
    newsletter_optin a'
    = match last_value "newsletter_optin" cleaned with
      | Some v => is_yes v
      | None => newsletter_optin a
      end /\
    Models.email a'
    = match last_email w form cleaned with
      | Some x => Some x
      | None => Models.email a
      end.
Proof.
  induction cleaned as [|e rest IH]; intros w a old Ht Hf;
    cbn [fold_left].
  - repeat split; assumption.
  - pose proof (save_entry_step form w a old e Ht Hf) as S1.
    destruct (save_entry form (w, a) e) as [w1 a1].
    destruct S1 as (Ht1 & Hp1 & Hfm1 & Hs1 & Hfr1 & Hn1 & He1).
    assert (Hf1 : ~ In (application_pk a1) (map application_pk old))
      by now rewrite Hp1.
    specialize (IH w1 a1 old Ht1 Hf1).
    destruct (fold_left (save_entry form) rest (w1, a1)) as [w2 a2].
    destruct IH as (Ht2 & Hp2 & Hfm2 & Hs2 & Hfr2 & Hn2 & He2).
    assert (Hq : questions w1 = questions w) by congruence.
    rewrite last_value_cons, last_email_cons.
    rewrite (last_email_questions form w w1 rest Hq) in He2.
    split; [assumption |]. split; [congruence |]. split; [congruence |].
    split; [congruence |]. split; [congruence |]. split.
    + rewrite Hn2. destruct (last_value "newsletter_optin" rest);
        [reflexivity |].
      rewrite Hn1. now destruct (String.eqb (fst e) "newsletter_optin").
    + rewrite He2. destruct (last_email w form rest); [reflexivity |].
      rewrite He1. now destruct (email_entry w form e).
Qed.

End RecorderState.

Section RecorderMore.

(** [save] in three steps: the loop, the event's address, the mail. *)
Lemma save_steps (env : Env) (w : World) (form : Form)
    (cleaned : list (string * Value)) :
  exists w1 application,
    save env w form cleaned
    = (send_confirmation env (fst (ensure_event_email w1 form))
                         (snd (ensure_event_email w1 form)) application,
       snd (ensure_event_email w1 form), application) /\
    applications w1 = applications w ++ [application] /\
    application_pk application = next_pk application_pk (applications w) /\
    application_form application = form_pk form /\
    state application = Some "submitted" /\
    (events w1, questions w1, scores w1, emails w1, outbox w1)
    = (events w, questions w, scores w, emails w, outbox w) /\
    newsletter_optin application
    = match last_value "newsletter_optin" cleaned with
      | Some v => is_yes v
      | None => false
      end /\
    Models.email application = last_email w form cleaned.
Proof.
  unfold save.
  set (a0 := mkApplication _ _ _ _ _).
  set (w0 := set_applications _ _).
  pose proof (save_loop_state form cleaned w0 a0 (applications w) eq_refl
                (next_pk_fresh application_pk (applications w))) as L.
  destruct (fold_left (save_entry form) cleaned (w0, a0)) as [w1 a1].
  destruct L as (Ht & Hp & Hf & Hs & Hfr & Hn & He).
  exists w1, a1.
  destruct (ensure_event_email w1 form) as [w2 form2].
  split; [reflexivity |]. split; [exact Ht |].
  split; [exact Hp |]. split; [exact Hf |]. split; [exact Hs |].
  split; [exact Hfr |]. split; [exact Hn |].
  rewrite He. rewrite (last_email_questions form w w0 cleaned eq_refl).
  now destruct (last_email w form cleaned).
Qed.

Lemma ensure_event_email_frame (w : World) (form : Form) :
  let '(w2, form2) := ensure_event_email w form in
  (applications w2, questions w2, scores w2, emails w2, outbox w2)
  = (applications w, questions w, scores w, emails w, outbox w) /\
  event_email (page_event (page form2))
  = Some (event_address (page form)) /\
  (form_pk form2, page_title (page form2), page_url (page form2),
   confirmation_mail form2)
  = (form_pk form, page_title (page form), page_url (page form),
     confirmation_mail form).
Proof.
  unfold ensure_event_email, event_address, or_str, truthy_ostr.
  destruct (event_email (page_event (page form))) as [e|] eqn:E;
    [destruct (truthy_str e) eqn:T |]; cbn; rewrite ?E; repeat split.
Qed.

Lemma send_confirmation_frame (env : Env) (w : World) (f : Form)
    (a : Application) :
  (events (send_confirmation env w f a),
   applications (send_confirmation env w f a),
   questions (send_confirmation env w f a),
   scores (send_confirmation env w f a),
   emails (send_confirmation env w f a))
  = (events w, applications w, questions w, scores w, emails w).
Proof.
  unfold send_confirmation.
  destruct (Models.email a) as [addr|]; [destruct (truthy_str addr) |];
    reflexivity.
Qed.

(** [save] adds one Application and changes no other: the new row is the
    last of the table, under a key no Application had, in the state
    [submitted] and for the Form; Questions, Scores and Emails stay. *)
Theorem save_appends_the_application (env : Env) (w : World) (form : Form)
    (cleaned : list (string * Value)) :
  let '(w', _, application) := save env w form cleaned in
  applications w' = applications w ++ [application] /\
  ~ In (application_pk application) (map application_pk (applications w)) /\
  application_form application = form_pk form /\
  state application = Some "submitted" /\
  (questions w', scores w', emails w') = (questions w, scores w, emails w).
Proof.
  destruct (save_steps env w form cleaned)
    as (w1 & a & -> & Ht & Hp & Hf & Hs & Hfr & _).
  pose proof (ensure_event_email_frame w1 form) as E.
  destruct (ensure_event_email w1 form) as [w2 form2]. cbn [fst snd].
  destruct E as (E & _).
  pose proof (send_confirmation_frame env w2 form2 a) as C.
  injection C as _ Ca Cq Cs Ce. injection E as Ea Eq Es Ee _.
  injection Hfr as _ Hq Hsc Hem _.
  split; [congruence |].
  split; [rewrite Hp; apply next_pk_fresh |].
  split; [assumption |]. split; [assumption |].
  rewrite Cq, Cs, Ce. congruence.
Qed.

(** After [save] the Form counts one Application more, and every other
    Form as many as before. *)
Theorem save_counts_the_application (env : Env) (w : World) (form : Form)
    (cleaned : list (string * Value)) (other : Form) :
  form_pk other <> form_pk form ->
  let '(w', _, _) := save env w form cleaned in
  FormModel.number_of_applications w' form
  = FormModel.number_of_applications w form + 1 /\
  FormModel.number_of_applications w' other
  = FormModel.number_of_applications w other.
Proof.
  intros Ho.
  destruct (save_steps env w form cleaned)
    as (w1 & a & -> & Ht & _ & Hf & _).
  pose proof (ensure_event_email_frame w1 form) as E.
  destruct (ensure_event_email w1 form) as [w2 form2]. cbn [fst snd].
  destruct E as (E & _).
  pose proof (send_confirmation_frame env w2 form2 a) as C.
  injection C as _ Ca _ _ _. injection E as Ea _ _ _ _.
  unfold FormModel.number_of_applications.
  rewrite Ca, Ea, Ht, !filter_app, !length_app. cbn [filter].
  rewrite Hf, Z.eqb_refl.
  destruct (Z.eqb_spec (form_pk form) (form_pk other)) as [E | _];
    [congruence |].
  cbn [List.length]. split; lia.
Qed.

Lemma save_counts_the_application_witness :
  let other := FormModel.with_pk 2 Sample.krakow in
  let w' := fst (fst (save Sample.env Sample.world Sample.krakow
                           Sample.cleaned)) in
  form_pk other <> form_pk Sample.krakow /\
  FormModel.number_of_applications w' Sample.krakow = 5 /\
  FormModel.number_of_applications w' other = 0.
Proof.
  intros other w'.
  assert (H : form_pk other <> form_pk Sample.krakow) by discriminate.
  split; [exact H |].
  exact (save_counts_the_application Sample.env Sample.world Sample.krakow
           Sample.cleaned other H).
Defined.

(** The new Application opted in iff the cleaned data say ["yes"] under
    [newsletter_optin]; any other value, a list, or no such entry leave it
    opted out. *)
Theorem save_records_the_opt_in (env : Env) (w : World) (form : Form)
    (cleaned : list (string * Value)) :
  let '(_, _, application) := save env w form cleaned in
  newsletter_optin application
  = match last_value "newsletter_optin" cleaned with
    | Some (VStr answer) => String.eqb answer "yes"
    | Some (VList _) | None => false
    end.
Proof.
  destruct (save_steps env w form cleaned)
    as (w1 & a & -> & _ & _ & _ & _ & _ & Hn & _).
  rewrite Hn. now destruct (last_value "newsletter_optin" cleaned) as [[|]|].
Qed.

(** The address of the new Application is the answer to an email question
    of the Form, the last one in the cleaned data; without such an answer
    the Application has no address. *)
Theorem save_takes_the_email_answer (env : Env) (w : World) (form : Form)
    (cleaned : list (string * Value)) :
  let '(_, _, application) := save env w form cleaned in
  Models.email application = last_email w form cleaned.
Proof.
  destruct (save_steps env w form cleaned)
    as (w1 & a & -> & _ & _ & _ & _ & _ & _ & He).
  exact He.
Qed.

End RecorderMore.

Section RecorderMail.

Lemma ensure_event_email_events (w : World) (form : Form) :
  let '(w2, form2) := ensure_event_email w form in
  if truthy_ostr (event_email (page_event (page form)))
  then events w2 = events w /\ form2 = form
  else find (fun ev => event_pk ev =? event_pk (page_event (page form)))
            (events w2)
       = Some (page_event (page form2)).
Proof.
  unfold ensure_event_email.
  destruct (truthy_ostr (event_email (page_event (page form))));
    [now split |].
  cbn.
  exact (save_row_find event_pk
           (mkEvent (event_pk (page_event (page form)))
                    (Some (page_url (page form) ++ "@djangogirls.org")%string))
           (events w)).
Qed.

(** After [save] the event of the Form has an address: its own if it had
    one, otherwise [<url>@djangogirls.org], which is then stored on the
    event.  It is the address [Email.send] uses, before and after. *)
Theorem save_gives_the_event_an_address (env : Env) (w : World)
    (form : Form) (cleaned : list (string * Value)) :
  let '(w', form', _) := save env w form cleaned in
  event_email (page_event (page form')) = Some (event_address (page form)) /\
  event_address (page form') = event_address (page form) /\
  truthy_str (event_address (page form)) = true /\
  if truthy_ostr (event_email (page_event (page form)))
  then events w' = events w /\ form' = form
  else find (fun ev => event_pk ev =? event_pk (page_event (page form)))
            (events w')
       = Some (page_event (page form')).
Proof.
  destruct (save_steps env w form cleaned) as (w1 & a & -> & _ & _ & _ & _
                                               & Hfr & _).
  pose proof (ensure_event_email_frame w1 form) as E.
  pose proof (ensure_event_email_events w1 form) as V.
  destruct (ensure_event_email w1 form) as [w2 form2]. cbn [fst snd].
  destruct E as (_ & Ee & Ep).
  pose proof (send_confirmation_frame env w2 form2 a) as C.
  injection C as Cev _ _ _ _. injection Hfr as Hev _ _ _ _.
  injection Ep as _ Eu _ _.
  pose proof (event_address_truthy (page form)) as T.
  split; [exact Ee |]. split; [| split; [exact T |]].
  - unfold event_address at 1, or_str. now rewrite Ee, T.
  - rewrite Cev.
    destruct (truthy_ostr (event_email (page_event (page form)))).
    + destruct V as [V1 V2]. split; congruence.
    + exact V.
Qed.

(** What the loop of [save] leaves: the new Application as the last row,
    the Answers of the entries, and every other table as it was. *)
Lemma recorded_state (w : World) (form : Form)
    (cleaned : list (string * Value)) :
  let '(w1, a) := recorded w form cleaned in
  applications w1 = applications w ++ [a] /\
  answers w1
  = answers w ++ flat_map (entry_answers w form (application_pk a)) cleaned /\
  (events w1, questions w1, scores w1, emails w1, outbox w1)
  = (events w, questions w, scores w, emails w, outbox w).
Proof.
  unfold recorded.
  set (a0 := mkApplication _ _ _ _ _).
  set (w0 := set_applications _ _).
  pose proof (save_loop_state form cleaned w0 a0 (applications w) eq_refl
                (next_pk_fresh application_pk (applications w))) as L.
  pose proof (save_loop_answers form cleaned w0 a0) as A.
  destruct (fold_left (save_entry form) cleaned (w0, a0)) as [w1 a1].
  destruct L as (Ht & Hp & _ & _ & Hfr & _). destruct A as (_ & _ & A).
  split; [exact Ht |]. split; [rewrite A, Hp; reflexivity | exact Hfr].
Qed.

(** [save], from what the loop leaves. *)
Lemma save_parts (env : Env) (w : World) (form : Form)
    (cleaned : list (string * Value)) :
  save env w form cleaned
  = (send_confirmation env
       (fst (ensure_event_email (fst (recorded w form cleaned)) form))
       (snd (ensure_event_email (fst (recorded w form cleaned)) form))
       (snd (recorded w form cleaned)),
     snd (ensure_event_email (fst (recorded w form cleaned)) form),
     snd (recorded w form cleaned)).
Proof.
  unfold save, recorded.
  destruct (fold_left (save_entry form) cleaned _) as [w1 a1].
  cbn [fst snd]. now destruct (ensure_event_email w1 form).
Qed.

(** The event's address is settled from the Form and the events alone. *)
Lemma ensure_event_email_same (w1 w : World) (form : Form) :
  events w1 = events w ->
  events (fst (ensure_event_email w1 form))
  = events (fst (ensure_event_email w form)) /\
  snd (ensure_event_email w1 form) = snd (ensure_event_email w form).
Proof.
  intros H. unfold ensure_event_email.
  destruct (truthy_ostr (event_email (page_event (page form)))); cbn;
    rewrite ?H; split; reflexivity.
Qed.

Lemma send_confirmation_outbox (env : Env) (w : World) (f : Form)
    (a : Application) :
  outbox (send_confirmation env w f a)
  = outbox w
    ++ (if has_address a
        then [(confirmation env w f a,
               delivers env (outbox w) (confirmation env w f a))]
        else []).
Proof.
  unfold send_confirmation, confirmation, has_address, address, truthy_ostr.
  destruct (Models.email a) as [addr|]; [| now rewrite app_nil_r].
  destruct (truthy_str addr); [reflexivity | now rewrite app_nil_r].
Qed.

(** [save] sends at most one mail: the confirmation, exactly when the new
    Application has a non-empty address, to that address alone, from the
    page title and the event's address, its body rendered over the tables
    as [save] leaves them.  The transport's answer is logged with the
    message and changes nothing else: the Application, the Answers and
    every other table are what the cleaned data make them, whatever the
    transport and the templates do. *)
Theorem save_confirms_once (env : Env) (w : World) (form : Form)
    (cleaned : list (string * Value)) :
  let '(w', form', application) := save env w form cleaned in
  (if has_address application
   then
     let before :=
       mkWorld (events w') (questions w') (applications w') (answers w')
               (scores w') (emails w') (outbox w) in
     let msg :=
       mkEmailMessage
         ("Confirmation of your application for "
          ++ page_title (page form))%string
         (render_to_string env "emails/application_confirmation.html"
                           before application (confirmation_mail form))
         (page_title (page form) ++ " <" ++ event_address (page form)
          ++ ">")%string
         [address application] "html" in
     outbox w' = outbox w ++ [(msg, delivers env (outbox w) msg)]
   else outbox w' = outbox w) /\
  applications w' = applications w ++ [application] /\
  answers w'
  = answers w
    ++ flat_map (entry_answers w form (application_pk application)) cleaned /\
  (questions w', scores w', emails w') = (questions w, scores w, emails w) /\
  (events w', form')
  = (events (fst (ensure_event_email w form)),
     snd (ensure_event_email w form)) /\
  forall env',
    let '(w'', form'', application') := save env' w form cleaned in
    (events w'', questions w'', applications w'', answers w'', scores w'',
     emails w'')
    = (events w', questions w', applications w', answers w', scores w',
       emails w') /\
    (form'', application') = (form', application) /\
    map (fun e => msg_to (fst e)) (outbox w'')
    = map (fun e => msg_to (fst e)) (outbox w').
Proof.
  pose proof (recorded_state w form cleaned) as R.
  assert (P : forall e, save e w form cleaned = _)
    by (intros e; apply (save_parts e w form cleaned)).
  destruct (recorded w form cleaned) as [w1 a]. cbn [fst snd] in P.
  destruct R as (Ht & Ha & Hfr). injection Hfr as Hev Hq Hs He Ho.
  pose proof (ensure_event_email_frame w1 form) as E.
  pose proof (ensure_event_email_answers form w1) as A2.
  destruct (ensure_event_email_same w1 w form Hev) as [Ev1 Ev2].
  destruct (ensure_event_email w1 form) as [w2 form2]. cbn [fst snd] in *.
  destruct E as (Ef & Ee & Ep). injection Ef as Ea Eq Es Ee' Eo.
  injection Ep as _ Et _ Ec.
  assert (F : forall e,
             (events (send_confirmation e w2 form2 a),
              questions (send_confirmation e w2 form2 a),
              applications (send_confirmation e w2 form2 a),
              answers (send_confirmation e w2 form2 a),
              scores (send_confirmation e w2 form2 a),
              emails (send_confirmation e w2 form2 a))
             = (events w2, questions w2, applications w2, answers w2,
                scores w2, emails w2)).
  { intros e. pose proof (send_confirmation_frame e w2 form2 a) as X.
    injection X as X1 X2 X3 X4 X5.
    now rewrite X1, X2, X3, X4, X5, (send_confirmation_answers e w2 form2 a). }
  assert (O : forall e,
             outbox (send_confirmation e w2 form2 a)
             = outbox w
               ++ (if has_address a
                   then [(confirmation e w2 form2 a,
                          delivers e (outbox w) (confirmation e w2 form2 a))]
                   else []))
    by (intros e; rewrite send_confirmation_outbox, Eo, Ho; reflexivity).
  rewrite (P env).
  pose proof (F env) as Fe. injection Fe as F1 F2 F3 F4 F5 F6.
  split.
  { rewrite (O env). destruct (has_address a); [| apply app_nil_r].
    cbv zeta. rewrite F1, F2, F3, F4, F5, F6, <- Ho, <- Eo.
    unfold confirmation. rewrite Et, Ec, Ee.
    destruct w2; reflexivity. }
  split; [now rewrite F3, Ea |].
  split; [now rewrite F4, A2 |].
  split; [now rewrite F2, F5, F6, Eq, Es, Ee', Hq, Hs, He |].
  split; [now rewrite F1, Ev1, Ev2 |].
  intros env'. rewrite (P env').
  split; [now rewrite (F env'), F1, F2, F3, F4, F5, F6 |].
  split; [reflexivity |].
  rewrite (O env'), (O env), !map_app.
  now destruct (has_address a).
Qed.

End RecorderMail.

Section RecorderAnswers.

(** Cleaned data that hold one value under the field name of each of some
    Questions of the Form are persisted as one Answer per Question, in the
    order of the data, each for the new Application and with the flattened
    value. *)
Theorem save_answers_each_question (env : Env) (w : World) (form : Form)
    (entries : list (Question * Value)) :
  NoDup (map question_pk (questions w)) ->
  Forall (fun qv => In (fst qv) (questions w) /\
                    question_form (fst qv) = form_pk form) entries ->
  let '(w', _, application) :=
    save env w form (map (fun qv => (field_name (fst qv), snd qv)) entries) in
  answers w'
  = answers w
    ++ map (fun qv => mkAnswer (application_pk application)
                               (question_pk (fst qv)) (flatten (snd qv)))
           entries.
Proof.
  intros Hnd Hall.
  pose proof (save_answers env form w
                (map (fun qv => (field_name (fst qv), snd qv)) entries)) as H.
  destruct (save env w form _) as [[w' form'] a].
  destruct H as [_ ->]. f_equal.
  induction Hall as [|[q v] rest [Hin Hf] _ IH]; [reflexivity |].
  cbn [map flat_map fst snd]. rewrite IH.
  unfold entry_answers at 1. cbn [fst snd].
  now rewrite (field_name_resolves form w q Hnd Hin Hf).
Qed.

Lemma save_answers_each_question_witness :
  let entries := [(Sample.q_letters, VList ["C"; "A"]);
                  (Sample.q_name, VStr "Ola")] in
  NoDup (map question_pk (questions Sample.world)) /\
  Forall (fun qv => In (fst qv) (questions Sample.world) /\
                    question_form (fst qv) = form_pk Sample.krakow) entries /\
  answers (fst (fst (save Sample.env Sample.world Sample.krakow
                          [("question_4", VList ["C"; "A"]);
                           ("question_1", VStr "Ola")])))
  = [mkAnswer 5 4 "C, A"; mkAnswer 5 1 "Ola"].
Proof.
  intros entries.
  assert (H1 : NoDup (map question_pk (questions Sample.world)))
    by (repeat constructor; simpl; intuition discriminate).
  assert (H2 : Forall (fun qv => In (fst qv) (questions Sample.world) /\
                                 question_form (fst qv)
                                 = form_pk Sample.krakow) entries)
    by (repeat constructor; simpl; auto 10).
  split; [exact H1 |]. split; [exact H2 |].
  exact (save_answers_each_question Sample.env Sample.world Sample.krakow
           entries H1 H2).
Defined.

End RecorderAnswers.

(** ** A Form and its default questions *)

Section DefaultQuestions.

Lemma max_pk_app {A : Type} (pk : A -> Z) (table : list A) (r : A) :
  next_pk pk (table ++ [r]) = Z.max (next_pk pk table) (1 + Z.max (pk r) 0).
Proof.
  unfold next_pk.
  induction table as [|x rest IH]; cbn [app map fold_right]; lia.
Qed.

Lemma next_pk_positive {A : Type} (pk : A -> Z) (table : list A) :
  1 <= next_pk pk table.
Proof.
  unfold next_pk. induction table; cbn [map fold_right]; lia.
Qed.

(** The loop of [create_default_questions] never fails: each dictionary is
    stamped with the Form and the next order, and gives the next row. *)
Lemma create_from_runs (form : Z) (defaults : list FormModel.Kwargs) :
  forall (i : Z) (w : World),
    FormModel.create_from form i defaults w
    = Some (mkWorld (events w)
                    (questions w
                     ++ default_questions form
                          (next_pk question_pk (questions w)) i defaults)
                    (applications w) (answers w) (scores w) (emails w)
                    (outbox w),
            stamped form i defaults).
Proof.
  induction defaults as [|k rest IH]; intros i w; cbn -[next_pk Z.add].
  - rewrite app_nil_r. now destruct w.
  - rewrite IH. cbn -[next_pk Z.add Z.max]. rewrite <- app_assoc.
    cbn -[next_pk Z.add Z.max].
    rewrite max_pk_app. cbn [question_pk].
    pose proof (next_pk_positive question_pk (questions w)).
    replace (Z.max (next_pk question_pk (questions w))
               (1 + Z.max (next_pk question_pk (questions w)) 0))
      with (next_pk question_pk (questions w) + 1) by lia.
    reflexivity.
Qed.

Lemma default_questions_facts (form : Z) (defaults : list FormModel.Kwargs) :
  forall pk i,
    map order (default_questions form pk i defaults) = count_from i defaults /\
    map question_pk (default_questions form pk i defaults)
    = count_from pk defaults /\
    map title (default_questions form pk i defaults)
    = map FormModel.kw_title defaults /\
    Forall (fun q => question_form q = form)
           (default_questions form pk i defaults).
Proof.
  induction defaults as [|k rest IH]; intros pk i; cbn.
  - repeat split; constructor.
  - destruct (IH (pk + 1) (i + 1)) as (Ho & Hp & Ht & Hf).
    rewrite Ho, Hp, Ht. repeat split. now constructor.
Qed.

Lemma count_from_bounds {A : Type} (l : list A) :
  forall i x, In x (count_from i l) -> i <= x.
Proof.
  induction l as [|a l IH]; intros i x; cbn; [intros [] |].
  intros [<- | H]; [lia |]. specialize (IH _ _ H). lia.
Qed.

Lemma count_from_NoDup {A : Type} (l : list A) :
  forall i, NoDup (count_from i l).
Proof.
  induction l as [|a l IH]; intros i; cbn; constructor; [| apply IH].
  intros H. apply count_from_bounds in H. lia.
Qed.

(** Saving a Form that has no key yet stores it under a fresh key and
    gives it one Question per default dictionary, in their order: the
    Questions belong to the Form, are numbered 1, 2, ... in [order], carry
    the defaults' titles and get consecutive fresh keys; nothing else in
    the world changes. *)
Theorem new_form_gets_default_questions
    (defaults : list FormModel.Kwargs) (forms : list Form) (w : World)
    (self : Form) :
  exists form' w' defaults' created,
    FormModel.save defaults forms w None self
    = Some (forms ++ [form'], w', defaults', form') /\
    form' = FormModel.with_pk (next_pk form_pk forms) self /\
    ~ In (form_pk form') (map form_pk forms) /\
    questions w' = questions w ++ created /\
    map order created = count_from 1 defaults /\
    map title created = map FormModel.kw_title defaults /\
    Forall (fun q => question_form q = form_pk form') created /\
    map question_pk created
    = count_from (next_pk question_pk (questions w)) defaults /\
    (events w', applications w', answers w', scores w', emails w', outbox w')
    = (events w, applications w, answers w, scores w, emails w, outbox w).
Proof.
  unfold FormModel.save, FormModel.create_default_questions.
  cbn -[next_pk]. rewrite create_from_runs.
  destruct (default_questions_facts (next_pk form_pk forms) defaults
              (next_pk question_pk (questions w)) 1) as (Ho & Hp & Ht & Hf).
  do 4 eexists. split; [reflexivity |]. split; [reflexivity |].
  split; [apply next_pk_fresh |]. cbn -[next_pk].
  split; [reflexivity |]. repeat split; assumption.
Qed.

(** The Questions a new Form gets keep the keys of the table distinct, and
    each is the one [ApplicationForm.save] finds under its field name. *)
Theorem default_questions_resolve
    (defaults : list FormModel.Kwargs) (forms forms' : list Form)
    (w w' : World) (defaults' : list FormModel.Kwargs) (self form' : Form) :
  NoDup (map question_pk (questions w)) ->
  FormModel.save defaults forms w None self
  = Some (forms', w', defaults', form') ->
  NoDup (map question_pk (questions w')) /\
  List.length (questions w')
  = (List.length (questions w) + List.length defaults)%nat /\
  forall q, In q (questions w') -> ~ In q (questions w) ->
            get_question w' (replace "question_" "" (field_name q)) form'
            = Some q.
Proof.
  intros Hnd H.
  unfold FormModel.save, FormModel.create_default_questions in H.
  cbn -[next_pk] in H.
  rewrite create_from_runs in H. injection H as _ <- _ <-.
  destruct (default_questions_facts (next_pk form_pk forms) defaults
              (next_pk question_pk (questions w)) 1) as (_ & Hp & Ht & Hf).
  cbn [questions].
  assert (N : NoDup (map question_pk
                       (questions w
                        ++ default_questions (next_pk form_pk forms)
                             (next_pk question_pk (questions w)) 1 defaults))).
  { rewrite map_app, Hp. apply NoDup_app; [assumption | |].
    - apply count_from_NoDup.
    - intros x Hx Hx'. apply count_from_bounds in Hx'.
      apply in_map_iff in Hx as (q & <- & Hq).
      pose proof (next_pk_above question_pk _ q Hq). lia. }
  split; [exact N |]. split.
  - rewrite length_app. f_equal.
    rewrite <- (length_map title), Ht. apply length_map.
  - intros q Hq Hnew. apply field_name_resolves; [exact N | exact Hq |].
    apply in_app_or in Hq as [Hq | Hq]; [contradiction |].
    rewrite Forall_forall in Hf. now apply Hf.
Qed.

End DefaultQuestions.

Section DefaultQuestionsAgain.

Lemma default_questions_resolve_witness :
  let result := FormModel.save Fixtures.defaults [Sample.krakow] Sample.world
                               None Sample.krakow in
  let w' := mkWorld (events Sample.world)
                    (questions Sample.world
                     ++ default_questions 2 10 1 Fixtures.defaults)
                    (applications Sample.world) [] [] [] [] in
  let form' := FormModel.with_pk 2 Sample.krakow in
  NoDup (map question_pk (questions Sample.world)) /\
  result = Some ([Sample.krakow; form'], w', stamped 2 1 Fixtures.defaults,
                 form') /\
  NoDup (map question_pk (questions w')) /\
  List.length (questions w') = 8%nat.
Proof.
  intros result w' form'.
  assert (H1 : NoDup (map question_pk (questions Sample.world)))
    by (repeat constructor; simpl; intuition discriminate).
  assert (H2 : result = Some ([Sample.krakow; form'], w',
                              stamped 2 1 Fixtures.defaults, form'))
    by reflexivity.
  destruct (default_questions_resolve _ _ _ _ _ _ _ _ H1 H2) as (N & L & _).
  split; [exact H1 |]. split; [exact H2 |]. split; [exact N | exact L].
Defined.

(** Saving the Form again, now that it has its key, creates no Question and
    changes nothing at all: the default questions are given once. *)
Theorem saved_form_gets_no_more_questions
    (defaults defaults' : list FormModel.Kwargs) (forms forms' : list Form)
    (w w' : World) (self form' : Form) :
  FormModel.save defaults forms w None self
  = Some (forms', w', defaults', form') ->
  FormModel.save defaults' forms' w' (Some (form_pk form')) form'
  = Some (forms', w', defaults', form').
Proof.
  intros H. unfold FormModel.save in H. cbn -[next_pk] in H.
  destruct (FormModel.create_default_questions _ defaults w)
    as [[w1 d1]|]; [| discriminate].
  injection H as <- <- <- <-.
  pose proof (next_pk_positive form_pk forms) as P.
  unfold FormModel.save, FormModel.is_form_new, FormModel.store.
  cbn -[next_pk].
  destruct (Z.eqb_spec (next_pk form_pk forms) 0) as [E | _]; [lia |].
  rewrite (save_row_last form_pk forms);
    [reflexivity | apply next_pk_fresh | reflexivity].
Qed.

Lemma saved_form_gets_no_more_questions_witness :
  exists forms' w' defaults' form',
    FormModel.save Fixtures.defaults [] Sample.world None Sample.krakow
    = Some (forms', w', defaults', form') /\
    FormModel.save defaults' forms' w' (Some (form_pk form')) form'
    = Some (forms', w', defaults', form').
Proof.
  do 4 eexists.
  assert (H : FormModel.save Fixtures.defaults [] Sample.world None
                             Sample.krakow = Some (_, _, _, _))
    by reflexivity.
  split; [exact H |].
  exact (saved_form_gets_no_more_questions _ _ _ _ _ _ _ _ H).
Defined.

Lemma set_form_order_twice (k : FormModel.Kwargs) (form i : Z) :
  FormModel.set_form_order (FormModel.set_form_order k 0 0) form i
  = FormModel.set_form_order k form i.
Proof. reflexivity. Qed.

Lemma create_from_stale (form : Z) (d1 : list FormModel.Kwargs) :
  forall (d2 : list FormModel.Kwargs) (i : Z) (w : World),
    map (fun k => FormModel.set_form_order k 0 0) d1
    = map (fun k => FormModel.set_form_order k 0 0) d2 ->
    FormModel.create_from form i d1 w = FormModel.create_from form i d2 w.
Proof.
  induction d1 as [|k1 d1 IH]; intros [|k2 d2] i w H; try discriminate;
    [reflexivity |].
  pose proof (f_equal (@tl _) H) as Hrest.
  pose proof (f_equal (hd k1) H) as Hk. cbn [map tl hd] in Hrest, Hk.
  cbn [FormModel.create_from].
  assert (E : FormModel.set_form_order k1 form i
              = FormModel.set_form_order k2 form i).
  { rewrite <- (set_form_order_twice k1 form i),
            <- (set_form_order_twice k2 form i).
    now rewrite Hk. }
  rewrite E.
  destruct (FormModel.objects_create w _) as [w1|]; [| reflexivity].
  now rewrite (IH d2 (i + 1) w1 Hrest).
Qed.

(** What an earlier call wrote into the default dictionaries does not
    matter: dictionaries that differ only in their [form] and [order] keys
    give a Form the same Questions and end up the same. *)
Theorem stale_defaults_do_not_leak (self : Form)
    (d1 d2 : list FormModel.Kwargs) (w : World) :
  map (fun k => FormModel.set_form_order k 0 0) d1
  = map (fun k => FormModel.set_form_order k 0 0) d2 ->
  FormModel.create_default_questions self d1 w
  = FormModel.create_default_questions self d2 w.
Proof. apply create_from_stale. Qed.

Lemma stale_defaults_do_not_leak_witness :
  let used := stamped 7 1 Fixtures.defaults in
  map (fun k => FormModel.set_form_order k 0 0) Fixtures.defaults
  = map (fun k => FormModel.set_form_order k 0 0) used /\
  FormModel.create_default_questions Sample.krakow Fixtures.defaults
                                     Sample.world
  = FormModel.create_default_questions Sample.krakow used Sample.world.
Proof.
  intros used.
  assert (H : map (fun k => FormModel.set_form_order k 0 0) Fixtures.defaults
              = map (fun k => FormModel.set_form_order k 0 0) used)
    by reflexivity.
  split; [exact H |].
  exact (stale_defaults_do_not_leak Sample.krakow Fixtures.defaults used
           Sample.world H).
Defined.

End DefaultQuestionsAgain.
